(** * simple-image-modal: the zoom/pan transform engine and the modal lifecycle

    A shallow embedding of [src/simple-image-modal.js] (class
    [SimpleImageModal]).  The fields of the instance, the inline styles the
    class writes, the listeners [bindEvents] registers and the timers
    [open]/[close] start are explicit state; every method is a function on
    that state.  Numbers are ECMAScript Numbers, that is IEEE-754 binary64
    values, taken from the Standard Library's [SpecFloat]. *)

From Stdlib Require Import ZArith List Bool String Lia.
From Stdlib Require Import Floats.SpecFloat.
Import ListNotations.

Local Open Scope Z_scope.

(** ** ECMAScript Numbers *)

(** A Number is a binary64 value: a signed zero, a signed infinity, NaN, or
    a finite [m * 2^e] with a 53-bit mantissa.  The operations below are
    those of [SpecFloat] at precision 53; the lemmas and theorems of this
    file hold for every [spec_float], so in particular for the binary64
    values a running page has. *)

Module Num.

Definition number := spec_float.

Definition prec : Z := 53.
Definition emax : Z := 1024.

(** [a + b] and [a - b] on Numbers. *)
Definition add (a b : number) : number := SFadd prec emax a b.
Definition sub (a b : number) : number := SFsub prec emax a b.

(** [a > b], [a <= b] and [a === b] on Numbers. *)
Definition gtb (a b : number) : bool := SFltb b a.
Definition leb (a b : number) : bool := SFleb a b.
Definition strict_eq (a b : number) : bool := SFeqb a b.

Definition of_Z (z : Z) : number := binary_normalize prec emax z 0 false.

(** The literals of the source: [0], [1], [3], [0.1] and [-0.1]. *)
Definition zero : number := S754_zero false.
Definition one : number := Eval cbv in of_Z 1.
Definition three : number := Eval cbv in of_Z 3.
Definition tenth : number := S754_finite false 7205759403792794 (-56).
Definition neg_tenth : number := S754_finite true 7205759403792794 (-56).

Definition nan : number := S754_nan.
Definition pos_infinity : number := S754_infinity false.
Definition neg_infinity : number := S754_infinity true.

Definition is_nan (a : number) : bool :=
  match a with S754_nan => true | _ => false end.

(** [Math.max(a, b)]: NaN if either argument is NaN, and [+0] counts as
    larger than [-0]. *)
Definition Math_max (a b : number) : number :=
  match SFcompare a b with
  | None => S754_nan
  | Some Lt => b
  | Some Gt => a
  | Some Eq =>
      match a, b with
      | S754_zero true, S754_zero false => b
      | _, _ => a
      end
  end.

(** [Math.min(a, b)]: NaN if either argument is NaN, and [-0] counts as
    smaller than [+0]. *)
Definition Math_min (a b : number) : number :=
  match SFcompare a b with
  | None => S754_nan
  | Some Lt => a
  | Some Gt => b
  | Some Eq =>
      match a, b with
      | S754_zero false, S754_zero true => b
      | _, _ => a
      end
  end.

End Num.

Import Num.

#[global] Arguments add : simpl never.
#[global] Arguments sub : simpl never.
#[global] Arguments gtb : simpl never.
#[global] Arguments leb : simpl never.
#[global] Arguments strict_eq : simpl never.
#[global] Arguments Math_max : simpl never.
#[global] Arguments Math_min : simpl never.
#[global] Arguments one : simpl never.
#[global] Arguments three : simpl never.
#[global] Arguments tenth : simpl never.
#[global] Arguments neg_tenth : simpl never.

(** ** The configuration *)

(** [this.options]: the defaults of the constructor, overridden by the
    caller's object.  [animationDuration] is a whole number of
    milliseconds. *)
Record Options := mkOptions {
  selector : string;
  excludeSelector : option string;
  modalClass : string;
  modalContentClass : string;
  closeButtonClass : string;
  captionClass : string;
  animationDuration : Z;
  closeOnClick : bool;
  closeOnEsc : bool;
  showCaption : bool;
  enableZoom : bool;
  maxZoom : number
}.

(** An options object as a caller writes it: each key is present or not. *)
Record OptionsPatch := mkPatch {
  p_selector : option string;
  p_excludeSelector : option (option string);
  p_modalClass : option string;
  p_modalContentClass : option string;
  p_closeButtonClass : option string;
  p_captionClass : option string;
  p_animationDuration : option Z;
  p_closeOnClick : option bool;
  p_closeOnEsc : option bool;
  p_showCaption : option bool;
  p_enableZoom : option bool;
  p_maxZoom : option number
}.

Definition override {A : Type} (base : A) (o : option A) : A :=
  match o with
  | Some v => v
  | None => base
  end.

(** [{ ...base, ...p }]: the keys of [p] win. *)
Definition spread (base : Options) (p : OptionsPatch) : Options :=
  {| selector := override (selector base) (p_selector p);
     excludeSelector := override (excludeSelector base) (p_excludeSelector p);
     modalClass := override (modalClass base) (p_modalClass p);
     modalContentClass := override (modalContentClass base) (p_modalContentClass p);
     closeButtonClass := override (closeButtonClass base) (p_closeButtonClass p);
     captionClass := override (captionClass base) (p_captionClass p);
     animationDuration := override (animationDuration base) (p_animationDuration p);
     closeOnClick := override (closeOnClick base) (p_closeOnClick p);
     closeOnEsc := override (closeOnEsc base) (p_closeOnEsc p);
     showCaption := override (showCaption base) (p_showCaption p);
     enableZoom := override (enableZoom base) (p_enableZoom p);
     maxZoom := override (maxZoom base) (p_maxZoom p) |}.

Definition defaults : Options :=
  {| selector := "img";
     excludeSelector := None;
     modalClass := "simple-image-modal";
     modalContentClass := "simple-image-modal-content";
     closeButtonClass := "simple-image-modal-close";
     captionClass := "simple-image-modal-caption";
     animationDuration := 300;
     closeOnClick := true;
     closeOnEsc := true;
     showCaption := true;
     enableZoom := true;
     maxZoom := three |}.

(** The empty object [{}]. *)
Definition no_options : OptionsPatch :=
  mkPatch None None None None None None None None None None None None.

(** [{ enableZoom: b }], [{ maxZoom: z }] and [{ animationDuration: d }]. *)
Definition only_enableZoom (b : bool) : OptionsPatch :=
  mkPatch None None None None None None None None None None (Some b) None.
Definition only_maxZoom (z : number) : OptionsPatch :=
  mkPatch None None None None None None None None None None None (Some z).
Definition only_animationDuration (d : Z) : OptionsPatch :=
  mkPatch None None None None None None (Some d) None None None None None.

(** ** The page: images, the modal's elements, listeners and timers *)

(** What [open] reads of an image element: [src] and the [alt] and [title]
    attributes ([getAttribute] gives [null] for a missing one). *)
Record Image := mkImage {
  src : string;
  alt : option string;
  title : option string
}.

(** The three numbers interpolated into
    [translate(${x}px, ${y}px) scale(${s})]. *)
Record Transform := mkTransform {
  tr_x : number;
  tr_y : number;
  tr_scale : number
}.

(** The inline styles and contents the class writes after [createModal]. *)
Record Dom := mkDom {
  modal_display : string;
  modal_opacity : string;
  body_overflow : string;
  modalImg_src : string;
  modalImg_cursor : string;
  modalImg_transform : option Transform;
  caption_textContent : string;
  caption_display : string;
  modal_attached : bool
}.

(** Which of the conditional listeners [bindEvents] registered. *)
Record Listeners := mkListeners {
  closeOnClick_bound : bool;
  closeOnEsc_bound : bool;
  zoom_bound : bool
}.

(** The two callbacks handed to [setTimeout]. *)
Inductive Task :=
| FadeIn
| FinishClose.

(** ** The instance *)

Record Modal := mkModal {
  options : Options;
  currentImage : option Image;
  scale : number;
  isDragging : bool;
  startX : number;
  startY : number;
  translateX : number;
  translateY : number;
  dom : Dom;
  listeners : Listeners;
  now : Z;
  timers : list (Z * Task)
}.

Definition set_options (v : Options) (m : Modal) : Modal :=
  mkModal v (currentImage m) (scale m) (isDragging m) (startX m) (startY m)
    (translateX m) (translateY m) (dom m) (listeners m) (now m) (timers m).
Definition set_currentImage (v : option Image) (m : Modal) : Modal :=
  mkModal (options m) v (scale m) (isDragging m) (startX m) (startY m)
    (translateX m) (translateY m) (dom m) (listeners m) (now m) (timers m).
Definition set_scale (v : number) (m : Modal) : Modal :=
  mkModal (options m) (currentImage m) v (isDragging m) (startX m) (startY m)
    (translateX m) (translateY m) (dom m) (listeners m) (now m) (timers m).
Definition set_isDragging (v : bool) (m : Modal) : Modal :=
  mkModal (options m) (currentImage m) (scale m) v (startX m) (startY m)
    (translateX m) (translateY m) (dom m) (listeners m) (now m) (timers m).
Definition set_startX (v : number) (m : Modal) : Modal :=
  mkModal (options m) (currentImage m) (scale m) (isDragging m) v (startY m)
    (translateX m) (translateY m) (dom m) (listeners m) (now m) (timers m).
Definition set_startY (v : number) (m : Modal) : Modal :=
  mkModal (options m) (currentImage m) (scale m) (isDragging m) (startX m) v
    (translateX m) (translateY m) (dom m) (listeners m) (now m) (timers m).
Definition set_translateX (v : number) (m : Modal) : Modal :=
  mkModal (options m) (currentImage m) (scale m) (isDragging m) (startX m) (startY m)
    v (translateY m) (dom m) (listeners m) (now m) (timers m).
Definition set_translateY (v : number) (m : Modal) : Modal :=
  mkModal (options m) (currentImage m) (scale m) (isDragging m) (startX m) (startY m)
    (translateX m) v (dom m) (listeners m) (now m) (timers m).
Definition set_dom (v : Dom) (m : Modal) : Modal :=
  mkModal (options m) (currentImage m) (scale m) (isDragging m) (startX m) (startY m)
    (translateX m) (translateY m) v (listeners m) (now m) (timers m).
Definition set_now (v : Z) (m : Modal) : Modal :=
  mkModal (options m) (currentImage m) (scale m) (isDragging m) (startX m) (startY m)
    (translateX m) (translateY m) (dom m) (listeners m) v (timers m).
Definition set_timers (v : list (Z * Task)) (m : Modal) : Modal :=
  mkModal (options m) (currentImage m) (scale m) (isDragging m) (startX m) (startY m)
    (translateX m) (translateY m) (dom m) (listeners m) (now m) v.

Definition set_modal_display (v : string) (m : Modal) : Modal :=
  let d := dom m in
  set_dom (mkDom v (modal_opacity d) (body_overflow d) (modalImg_src d)
             (modalImg_cursor d) (modalImg_transform d) (caption_textContent d)
             (caption_display d) (modal_attached d)) m.
Definition set_modal_opacity (v : string) (m : Modal) : Modal :=
  let d := dom m in
  set_dom (mkDom (modal_display d) v (body_overflow d) (modalImg_src d)
             (modalImg_cursor d) (modalImg_transform d) (caption_textContent d)
             (caption_display d) (modal_attached d)) m.
Definition set_body_overflow (v : string) (m : Modal) : Modal :=
  let d := dom m in
  set_dom (mkDom (modal_display d) (modal_opacity d) v (modalImg_src d)
             (modalImg_cursor d) (modalImg_transform d) (caption_textContent d)
             (caption_display d) (modal_attached d)) m.
Definition set_modalImg_src (v : string) (m : Modal) : Modal :=
  let d := dom m in
  set_dom (mkDom (modal_display d) (modal_opacity d) (body_overflow d) v
             (modalImg_cursor d) (modalImg_transform d) (caption_textContent d)
             (caption_display d) (modal_attached d)) m.
Definition set_modalImg_cursor (v : string) (m : Modal) : Modal :=
  let d := dom m in
  set_dom (mkDom (modal_display d) (modal_opacity d) (body_overflow d) (modalImg_src d)
             v (modalImg_transform d) (caption_textContent d)
             (caption_display d) (modal_attached d)) m.
Definition set_modalImg_transform (v : option Transform) (m : Modal) : Modal :=
  let d := dom m in
  set_dom (mkDom (modal_display d) (modal_opacity d) (body_overflow d) (modalImg_src d)
             (modalImg_cursor d) v (caption_textContent d)
             (caption_display d) (modal_attached d)) m.
Definition set_caption_textContent (v : string) (m : Modal) : Modal :=
  let d := dom m in
  set_dom (mkDom (modal_display d) (modal_opacity d) (body_overflow d) (modalImg_src d)
             (modalImg_cursor d) (modalImg_transform d) v
             (caption_display d) (modal_attached d)) m.
Definition set_caption_display (v : string) (m : Modal) : Modal :=
  let d := dom m in
  set_dom (mkDom (modal_display d) (modal_opacity d) (body_overflow d) (modalImg_src d)
             (modalImg_cursor d) (modalImg_transform d) (caption_textContent d)
             v (modal_attached d)) m.
Definition set_modal_attached (v : bool) (m : Modal) : Modal :=
  let d := dom m in
  set_dom (mkDom (modal_display d) (modal_opacity d) (body_overflow d) (modalImg_src d)
             (modalImg_cursor d) (modalImg_transform d) (caption_textContent d)
             (caption_display d) v) m.

(** ** Timers *)

(** The pending timers are kept in firing order: by due time, and among
    equal due times in the order they were set. *)
Fixpoint enqueue (due : Z) (t : Task) (q : list (Z * Task)) : list (Z * Task) :=
  match q with
  | [] => [(due, t)]
  | (due', t') :: q' =>
      if due' <=? due then (due', t') :: enqueue due t q'
      else (due, t) :: q
  end.

(** What a timer makes of its delay: the number is reduced to a signed
    32-bit integer, and a negative result counts as [0]. *)
Definition to_int32 (z : Z) : Z :=
  (z + 2147483648) mod 4294967296 - 2147483648.

Definition timer_delay (delay : Z) : Z := Z.max 0 (to_int32 delay).

(** [setTimeout(t, delay)]; the callback never runs before the calling
    method has returned. *)
Definition setTimeout (t : Task) (delay : Z) (m : Modal) : Modal :=
  set_timers (enqueue (now m + timer_delay delay) t (timers m)) m.

(** ** The methods of [SimpleImageModal] *)

(** Does a Number, printed into a style, read as a CSS number?  [NaN],
    [Infinity] and [-Infinity] do not. *)
Definition css_number (a : number) : bool :=
  match a with
  | S754_nan | S754_infinity _ => false
  | S754_zero _ | S754_finite _ _ _ => true
  end.

(** Is [translate(${translateX}px, ${translateY}px) scale(${scale})] a
    valid transform? *)
Definition printable (m : Modal) : bool :=
  css_number (translateX m) && css_number (translateY m)
  && css_number (scale m).

(** The assignment to [style.transform] takes effect only if the string is
    a valid transform; otherwise the style keeps the value it had. *)
Definition updateImageTransform (m : Modal) : Modal :=
  if printable m then
    set_modalImg_transform
      (Some (mkTransform (translateX m) (translateY m) (scale m))) m
  else m.

Definition resetZoom (m : Modal) : Modal :=
  let m := set_scale one m in
  let m := set_translateX zero m in
  let m := set_translateY zero m in
  updateImageTransform m.

Definition zoom (delta : number) (m : Modal) : Modal :=
  if negb (enableZoom (options m)) then m
  else
    let m :=
      set_scale
        (Math_min (maxZoom (options m)) (Math_max one (add (scale m) delta))) m in
    let m :=
      if strict_eq (scale m) one
      then set_translateY zero (set_translateX zero m)
      else m in
    updateImageTransform m.

Definition isOpen (m : Modal) : bool :=
  (modal_display (dom m) =? "flex")%string.

(** [a || b] on an attribute value ([null] and the empty string are falsy). *)
Definition or_else (a : option string) (b : string) : string :=
  match a with
  | Some s => if (s =? "")%string then b else s
  | None => b
  end.

Definition open (img : Image) (m : Modal) : Modal :=
  let m := set_currentImage (Some img) m in
  let m := set_modalImg_src (src img) m in
  let m :=
    if showCaption (options m) then
      let caption := or_else (alt img) (or_else (title img) "") in
      let m := set_caption_textContent caption m in
      set_caption_display (if (caption =? "")%string then "none" else "block") m
    else m in
  let m := set_modal_display "flex" m in
  let m := setTimeout FadeIn 10 m in
  set_body_overflow "hidden" m.

Definition close (m : Modal) : Modal :=
  let m := set_modal_opacity "0" m in
  setTimeout FinishClose (animationDuration (options m)) m.

(** What a timer's callback does when it fires. *)
Definition run_task (t : Task) (m : Modal) : Modal :=
  match t with
  | FadeIn => set_modal_opacity "1" m
  | FinishClose =>
      let m := set_modal_display "none" m in
      let m := set_body_overflow "" m in
      resetZoom m
  end.

Definition updateOptions (p : OptionsPatch) (m : Modal) : Modal :=
  set_options (spread (options m) p) m.

Definition destroy (m : Modal) : Modal :=
  let m := if modal_attached (dom m) then set_modal_attached false m else m in
  set_body_overflow "" m.

Definition isExcluded (excluded : bool) (m : Modal) : bool :=
  match excludeSelector (options m) with
  | None => false
  | Some s => if (s =? "")%string then false else excluded
  end.

(** ** Construction *)

Definition createModal (o : Options) : Dom :=
  {| modal_display := "none";
     modal_opacity := "0";
     body_overflow := "";
     modalImg_src := "";
     modalImg_cursor := if enableZoom o then "grab" else "pointer";
     modalImg_transform := None;
     caption_textContent := "";
     caption_display := "";
     modal_attached := true |}.

Definition bindEvents (o : Options) : Listeners :=
  {| closeOnClick_bound := closeOnClick o;
     closeOnEsc_bound := closeOnEsc o;
     zoom_bound := enableZoom o |}.

(** [new SimpleImageModal(p)], at time [0] with no timer pending. *)
Definition constructor (p : OptionsPatch) : Modal :=
  let o := spread defaults p in
  {| options := o;
     currentImage := None;
     scale := one;
     isDragging := false;
     startX := zero;
     startY := zero;
     translateX := zero;
     translateY := zero;
     dom := createModal o;
     listeners := bindEvents o;
     now := 0;
     timers := [] |}.

(** ** The listeners of [bindEvents] *)

(** [wheel] on the image: only the direction of [deltaY] counts. *)
Definition wheel_listener (deltaY : number) (m : Modal) : Modal :=
  let delta := if gtb deltaY zero then neg_tenth else tenth in
  zoom delta m.

(** [mousedown] on the image: the start of a drag. *)
Definition mousedown_listener (clientX clientY : number) (m : Modal) : Modal :=
  if gtb (scale m) one then
    let m := set_isDragging true m in
    let m := set_startX (sub clientX (translateX m)) m in
    let m := set_startY (sub clientY (translateY m)) m in
    set_modalImg_cursor "grabbing" m
  else m.

(** [mousemove] on the document: the drag goes on. *)
Definition mousemove_listener (clientX clientY : number) (m : Modal) : Modal :=
  if isDragging m && gtb (scale m) one then
    let m := set_translateX (sub clientX (startX m)) m in
    let m := set_translateY (sub clientY (startY m)) m in
    updateImageTransform m
  else m.

(** [mouseup] on the document: the end of a drag. *)
Definition mouseup_listener (m : Modal) : Modal :=
  if isDragging m then
    let m := set_isDragging false m in
    set_modalImg_cursor "grab" m
  else m.

Definition dblclick_listener (m : Modal) : Modal := resetZoom m.

(** Where a click lands with respect to the modal's own listeners. *)
Inductive ClickTarget :=
| OnBackdrop
| OnCloseButton
| OnOther.

(** The events the listeners react to.  A click carries what the page
    decides: the element [e.target.closest(selector)] finds, if any, and
    whether that element matches the exclusion selector. *)
Inductive Event :=
| Click (target : ClickTarget) (closest : option Image) (excluded : bool)
| KeyDown (key : string)
| Wheel (deltaY : number)
| MouseDown (clientX clientY : number)
| MouseMove (clientX clientY : number)
| MouseUp
| DblClick.

(** The click listeners, in bubbling order: the close button's and the
    backdrop's, then the document's. *)
Definition click_listeners
  (target : ClickTarget) (closest : option Image) (excluded : bool)
  (m : Modal) : Modal :=
  let m :=
    match target with
    | OnCloseButton => close m
    | OnBackdrop => if closeOnClick_bound (listeners m) then close m else m
    | OnOther => m
    end in
  match closest with
  | Some img => if negb (isExcluded excluded m) then open img m else m
  | None => m
  end.

Definition keydown_listener (key : string) (m : Modal) : Modal :=
  if closeOnEsc_bound (listeners m) then
    if (key =? "Escape")%string && isOpen m then close m else m
  else m.

(** An event runs the listeners that were registered for it. *)
Definition dispatch (e : Event) (m : Modal) : Modal :=
  match e with
  | Click target closest excluded => click_listeners target closest excluded m
  | KeyDown key => keydown_listener key m
  | Wheel deltaY =>
      if zoom_bound (listeners m) then wheel_listener deltaY m else m
  | MouseDown x y =>
      if zoom_bound (listeners m) then mousedown_listener x y m else m
  | MouseMove x y =>
      if zoom_bound (listeners m) then mousemove_listener x y m else m
  | MouseUp =>
      if zoom_bound (listeners m) then mouseup_listener m else m
  | DblClick =>
      if zoom_bound (listeners m) then dblclick_listener m else m
  end.

(** ** Time *)

Definition due_by (deadline : Z) (p : Z * Task) : bool := fst p <=? deadline.

Definition run_tasks (q : list (Z * Task)) (m : Modal) : Modal :=
  fold_left (fun m p => run_task (snd p) m) q m.

(** [dt] milliseconds pass with no other event: the timers that are due
    by then fire, in order. *)
Definition elapse (dt : Z) (m : Modal) : Modal :=
  let deadline := now m + Z.max 0 dt in
  let due := filter (due_by deadline) (timers m) in
  let rest := filter (fun p => negb (due_by deadline p)) (timers m) in
  run_tasks due (set_now deadline (set_timers rest m)).

(** ** Runs *)

(** What can happen to an instance: a method call, an event, time passing. *)
Inductive Action :=
| CallOpen (img : Image)
| CallClose
| CallZoom (delta : number)
| CallResetZoom
| CallUpdateOptions (p : OptionsPatch)
| CallDestroy
| Dispatch (e : Event)
| Elapse (dt : Z).

Definition step (m : Modal) (a : Action) : Modal :=
  match a with
  | CallOpen img => open img m
  | CallClose => close m
  | CallZoom delta => zoom delta m
  | CallResetZoom => resetZoom m
  | CallUpdateOptions p => updateOptions p m
  | CallDestroy => destroy m
  | Dispatch e => dispatch e m
  | Elapse dt => elapse dt m
  end.

Definition run (acts : list Action) (m : Modal) : Modal :=
  fold_left step acts m.

(** The operations of the transform engine on their own: the zoom step,
    the three phases of a drag, and the reset. *)
Inductive TransformOp :=
| ApplyZoomDelta (delta : number)
| BeginDrag (pointerX pointerY : number)
| ContinueDrag (pointerX pointerY : number)
| EndDrag
| Reset.

Definition apply_op (m : Modal) (op : TransformOp) : Modal :=
  match op with
  | ApplyZoomDelta delta => zoom delta m
  | BeginDrag x y => mousedown_listener x y m
  | ContinueDrag x y => mousemove_listener x y m
  | EndDrag => mouseup_listener m
  | Reset => resetZoom m
  end.

Definition apply_ops (ops : list TransformOp) (m : Modal) : Modal :=
  fold_left apply_op ops m.

(** ** What a user of the page can observe *)

Definition scroll_suspended (m : Modal) : bool :=
  (body_overflow (dom m) =? "hidden")%string.

Definition identity_transform (m : Modal) : Prop :=
  scale m = one /\ translateX m = zero /\ translateY m = zero.

Definition observable (m : Modal) : bool * bool * number * number * number :=
  (isOpen m, scroll_suspended m, scale m, translateX m, translateY m).

(** Hidden, with page scrolling not suspended and no zoom or pan. *)
Definition closed_at_rest (m : Modal) : Prop :=
  isOpen m = false /\ scroll_suspended m = false /\ identity_transform m.

(** The clamp [zoom] computes. *)
Definition clamp_scale (m : Modal) (delta : number) : number :=
  Math_min (maxZoom (options m)) (Math_max one (add (scale m) delta)).

(** [1 <= scale <= maxZoom], with the comparisons of the language. *)
Definition scale_in_range (m : Modal) : Prop :=
  leb one (scale m) = true /\ leb (scale m) (maxZoom (options m)) = true.

Definition Task_eqb (a b : Task) : bool :=
  match a, b with
  | FadeIn, FadeIn | FinishClose, FinishClose => true
  | _, _ => false
  end.

(** Is a timer with callback [t] pending in [q]? *)
Definition has_task (t : Task) (q : list (Z * Task)) : bool :=
  existsb (fun p => Task_eqb (snd p) t) q.

(** Pan is only ever away from the centre at a scale other than [1]. *)
Definition pan_invariant (m : Modal) : Prop :=
  strict_eq (scale m) one = true -> translateX m = zero /\ translateY m = zero.

(** Successive calls of [zoom]. *)
Definition zooms (deltas : list number) (m : Modal) : Modal :=
  fold_left (fun m delta => zoom delta m) deltas m.

(** Every action except an [updateOptions] that sets [enableZoom: true]. *)
Definition keeps_zoom_off (a : Action) : bool :=
  match a with
  | CallUpdateOptions p =>
      match p_enableZoom p with
      | Some true => false
      | _ => true
      end
  | _ => true
  end.

(** The events whose listeners [bindEvents] registers only when
    [enableZoom] is set. *)
Definition zoom_event (e : Event) : bool :=
  match e with
  | Wheel _ | MouseDown _ _ | MouseMove _ _ | MouseUp | DblClick => true
  | Click _ _ _ | KeyDown _ => false
  end.

(** ** Sample data *)

Definition cat : Image := mkImage "cat.png" (Some "cat"%string) None.
Definition dog : Image := mkImage "dog.png" None None.

(** A default instance showing [cat], zoomed in by one wheel notch. *)
Definition zoomed_cat : Modal :=
  dispatch (Wheel (of_Z (-100))) (open cat (constructor no_options)).

(** An instance built without zoom, with zoom switched on afterwards and
    [zoom] called once. *)
Definition late_zoom : Modal :=
  zoom tenth
    (updateOptions (only_enableZoom true) (constructor (only_enableZoom false))).


(** ** Further predicates and views *)

(** An attribute that is missing or empty. *)
Definition blank (a : option string) : bool :=
  match a with
  | Some s => (s =? "")%string
  | None => true
  end.


(** The cursor over the image is [grabbing] exactly during a drag. *)
Definition cursor_tracks_drag (m : Modal) : Prop :=
  isDragging m = (modalImg_cursor (dom m) =? "grabbing")%string.

(** Page scrolling is only ever suspended while the modal is laid out. *)
Definition scroll_lock_needs_open (m : Modal) : Prop :=
  scroll_suspended m = true -> isOpen m = true.

Definition any_action (a : Action) : bool := true.

(** The actions that keep [maxZoom] as it is and do not hand [zoom] a NaN
    or [-Infinity]. *)
Definition tame_action (a : Action) : bool :=
  match a with
  | CallZoom delta =>
      match delta with
      | S754_nan | S754_infinity true => false
      | _ => true
      end
  | CallUpdateOptions p =>
      match p_maxZoom p with
      | Some _ => false
      | None => true
      end
  | _ => true
  end.

(** The fields of the transform engine, and everything else. *)
Definition transform_state (m : Modal)
  : number * number * number * bool * number * number :=
  (scale m, translateX m, translateY m, isDragging m, startX m, startY m).

Definition lifecycle_state (m : Modal) :=
  (options m, currentImage m, listeners m, now m, timers m,
   (modal_display (dom m), modal_opacity (dom m), body_overflow (dom m),
    modalImg_src (dom m), caption_textContent (dom m), caption_display (dom m),
    modal_attached (dom m))).

(** The actions that can reach the transform engine: [zoom], [resetZoom],
    the zoom and drag events, and time, whose [close] callback resets. *)
Definition transform_action (a : Action) : bool :=
  match a with
  | CallZoom _ | CallResetZoom | Elapse _ => true
  | Dispatch e => zoom_event e
  | CallOpen _ | CallClose | CallUpdateOptions _ | CallDestroy => false
  end.

(** ** More sample data *)

(** [0.5]. *)
Definition half : number := S754_finite false 4503599627370496 (-53).

Definition bird : Image :=
  mkImage "bird.png" (Some ""%string) (Some "a bird"%string).

(** [{ showCaption: false }] and [{ excludeSelector: ".no-zoom" }]. *)
Definition no_caption : OptionsPatch :=
  mkPatch None None None None None None None None None (Some false) None None.
Definition exclude_no_zoom : OptionsPatch :=
  mkPatch None (Some (Some ".no-zoom"%string)) None None None None None None None
    None None None.

(** A morning of use: open, zoom in twice, drag, close by Escape, wait. *)
Definition session : list Action :=
  [CallOpen cat; Elapse 10;
   Dispatch (Wheel (of_Z (-100))); Dispatch (Wheel (of_Z (-100)));
   Dispatch (MouseDown (of_Z 100) (of_Z 40));
   Dispatch (MouseMove (of_Z 130) (of_Z 20)); Dispatch MouseUp;
   Dispatch (KeyDown "Escape"); Elapse 300].

(** ** Proof steps *)

(** Split on whether a write to [style.transform] took effect. *)
Ltac case_write :=
  unfold updateImageTransform;
  repeat match goal with
    | |- context [if printable ?x then _ else _] => destruct (printable x)
    end.

(** * Properties *)

(** ** Comparisons of Numbers *)

Section Comparisons.

Lemma compare_antisym (a b : number) (c : comparison) :
  SFcompare a b = Some c -> SFcompare b a = Some (CompOpp c).
Proof.
  destruct a as [sa|sa| |sa ma ea], b as [sb|sb| |sb mb eb]; simpl;
    try discriminate;
    try (destruct sa; intros [= <-]; reflexivity);
    try (destruct sb; intros [= <-]; reflexivity);
    try (destruct sa, sb; intros [= <-]; reflexivity).
  intros [= <-].
  assert (Hm : Pos.compare_cont Eq mb ma = CompOpp (Pos.compare_cont Eq ma mb))
    by (symmetry; apply (Pos.compare_cont_antisym ma mb Eq)).
  assert (He : (eb ?= ea) = CompOpp (ea ?= eb)) by apply Z.compare_antisym.
  rewrite Hm, He.
  destruct sa, sb; simpl; try reflexivity;
    destruct (ea ?= eb); simpl; try reflexivity;
    destruct (Pos.compare_cont Eq ma mb); reflexivity.
Qed.

Lemma compare_none (a b : number) :
  SFcompare a b = None <-> is_nan a = true \/ is_nan b = true.
Proof.
  destruct a as [sa|sa| |sa ma ea], b as [sb|sb| |sb mb eb]; simpl;
    split; intros H; try discriminate; auto;
    destruct H; discriminate.
Qed.

Lemma compare_refl (a : number) :
  is_nan a = false -> SFcompare a a = Some Eq.
Proof.
  destruct a as [sa|sa| |sa ma ea]; simpl; try discriminate;
    intros _; try (destruct sa; reflexivity).
  rewrite Z.compare_refl, Pos.compare_cont_refl.
  destruct sa; reflexivity.
Qed.

Lemma SFeqb_finite (a : number) (s : bool) (m : positive) (e : Z) :
  SFeqb a (S754_finite s m e) = true -> a = S754_finite s m e.
Proof.
  unfold SFeqb.
  destruct a as [sa|sa| |sa ma ea]; cbn [SFcompare]; try discriminate;
    try (destruct sa, s; discriminate); try (destruct s; discriminate).
  assert (Hm : Pos.compare_cont Eq ma m = Eq -> ma = m) by apply Pos.compare_eq.
  destruct (Z.compare_spec ea e) as [->| |]; destruct sa, s; try discriminate;
    destruct (Pos.compare_cont Eq ma m); try discriminate;
    intros _; rewrite Hm; reflexivity.
Qed.

Lemma strict_eq_one (a : number) : strict_eq a one = true <-> a = one.
Proof.
  split.
  - apply SFeqb_finite.
  - intros ->. vm_compute. reflexivity.
Qed.

Lemma gtb_not_strict_eq (a b : number) :
  gtb a b = true -> strict_eq a b = false.
Proof.
  unfold gtb, strict_eq, SFltb, SFeqb.
  destruct (SFcompare b a) as [[| |]|] eqn:E; try discriminate.
  rewrite (compare_antisym _ _ _ E). reflexivity.
Qed.

Lemma leb_not_nan (a b : number) :
  leb a b = true -> is_nan a = false /\ is_nan b = false.
Proof.
  unfold leb, SFleb.
  destruct a as [sa|sa| |sa ma ea], b as [sb|sb| |sb mb eb]; simpl;
    try discriminate; auto.
Qed.

Lemma leb_refl (a : number) : is_nan a = false -> leb a a = true.
Proof.
  intros H. unfold leb, SFleb. rewrite (compare_refl _ H). reflexivity.
Qed.

(** [Math.max] and [Math.min] return one of their arguments unless one
    of them is NaN. *)
Lemma Math_max_lower (a b : number) :
  is_nan a = false -> is_nan b = false ->
  leb a (Math_max a b) = true /\ (Math_max a b = a \/ Math_max a b = b).
Proof.
  intros Ha Hb. unfold Math_max, leb, SFleb.
  destruct (SFcompare a b) as [[| |]|] eqn:E.
  - assert (R : forall r, r = a \/ r = b ->
                match SFcompare a r with
                | Some Lt | Some Eq => true
                | _ => false
                end = true /\ (r = a \/ r = b)).
    { intros r [-> | ->]; [rewrite (compare_refl _ Ha) | rewrite E]; auto. }
    apply R. destruct a as [[|]| | |], b as [[|]| | |]; auto.
  - rewrite E. auto.
  - rewrite (compare_refl _ Ha). auto.
  - apply compare_none in E. destruct E; congruence.
Qed.

Lemma Math_max_not_nan (a b : number) :
  is_nan a = false -> is_nan b = false -> is_nan (Math_max a b) = false.
Proof.
  intros Ha Hb. destruct (Math_max_lower a b Ha Hb) as [_ [-> | ->]]; assumption.
Qed.

Lemma Math_min_clamps (hi x : number) :
  leb one hi = true -> leb one x = true ->
  leb one (Math_min hi x) = true /\ leb (Math_min hi x) hi = true.
Proof.
  intros Hhi Hx.
  destruct (leb_not_nan _ _ Hhi) as [_ Nhi].
  destruct (leb_not_nan _ _ Hx) as [_ Nx].
  unfold Math_min.
  destruct (SFcompare hi x) as [[| |]|] eqn:E.
  - assert (R : Math_min hi x = hi \/ Math_min hi x = x).
    { unfold Math_min. rewrite E.
      destruct hi as [[|]| | |], x as [[|]| | |]; auto. }
    unfold Math_min in R. rewrite E in R.
    destruct R as [-> | ->].
    + split; [assumption | now apply leb_refl].
    + split; [assumption|].
      unfold leb, SFleb. rewrite (compare_antisym _ _ _ E). reflexivity.
  - split; [assumption | now apply leb_refl].
  - split; [assumption|].
    unfold leb, SFleb. rewrite (compare_antisym _ _ _ E). reflexivity.
  - apply compare_none in E. destruct E; congruence.
Qed.

End Comparisons.

(** ** When an addition gives NaN *)

Section Rounding.

Variables p e : Z.

Lemma shr_1_nonneg (mrs : shr_record) :
  0 <= shr_m mrs -> 0 <= shr_m (shr_1 mrs).
Proof.
  destruct mrs as [m r s]. cbn [shr_m shr_1].
  destruct m as [|[q|q|]|[q|q|]]; cbn [shr_m]; lia.
Qed.

Lemma iter_shr_1_nonneg (n : positive) :
  forall mrs, 0 <= shr_m mrs -> 0 <= shr_m (iter_pos shr_1 n mrs).
Proof.
  induction n as [n IH|n IH|]; intros mrs H; cbn [iter_pos].
  - apply IH, IH, shr_1_nonneg, H.
  - apply IH, IH, H.
  - apply shr_1_nonneg, H.
Qed.

Lemma shr_nonneg (mrs : shr_record) (ex n : Z) :
  0 <= shr_m mrs -> 0 <= shr_m (fst (shr mrs ex n)).
Proof.
  intros H. unfold shr. destruct n; cbn [fst]; auto.
  apply iter_shr_1_nonneg, H.
Qed.

Lemma shr_fexp_nonneg (m ex : Z) (l : location) :
  0 <= m -> 0 <= shr_m (fst (shr_fexp p e m ex l)).
Proof.
  intros H. unfold shr_fexp. apply shr_nonneg.
  destruct l as [|[| |]]; exact H.
Qed.

Lemma round_nearest_even_nonneg (m : Z) (l : location) :
  0 <= m -> 0 <= round_nearest_even m l.
Proof.
  intros H. unfold round_nearest_even.
  destruct l as [|[| |]]; try destruct (Z.even m); lia.
Qed.

Lemma binary_round_aux_not_nan (sx : bool) (mx ex : Z) (lx : location) :
  0 <= mx -> is_nan (binary_round_aux p e sx mx ex lx) = false.
Proof.
  intros H. unfold binary_round_aux.
  pose proof (shr_fexp_nonneg mx ex lx H) as H1.
  destruct (shr_fexp p e mx ex lx) as [mrs' e']. cbn [fst] in H1.
  pose proof (shr_fexp_nonneg _ e' loc_Exact
                (round_nearest_even_nonneg _ (loc_of_shr_record mrs') H1)) as H2.
  destruct (shr_fexp p e (round_nearest_even (shr_m mrs') (loc_of_shr_record mrs'))
              e' loc_Exact) as [mrs'' e''].
  cbn [fst] in H2.
  destruct (shr_m mrs''); [reflexivity| |lia].
  destruct (e'' <=? e - p); reflexivity.
Qed.

Lemma binary_normalize_not_nan (m ex : Z) (sz : bool) :
  is_nan (binary_normalize p e m ex sz) = false.
Proof.
  unfold binary_normalize, binary_round.
  destruct m as [|q|q]; [reflexivity| |];
    destruct (shl_align q ex _) as [mz ez];
    apply binary_round_aux_not_nan; lia.
Qed.

End Rounding.

(** [a + b] is NaN only for a NaN operand or for opposite infinities. *)
Lemma add_nan (a b : number) :
  is_nan (add a b) = true ->
  is_nan a = true \/ is_nan b = true \/
  (a = pos_infinity /\ b = neg_infinity) \/
  (a = neg_infinity /\ b = pos_infinity).
Proof.
  unfold add, SFadd.
  destruct a as [sa|sa| |sa ma ea], b as [sb|sb| |sb mb eb];
    try (cbn [is_nan]; auto; fail);
    try (destruct sa; cbn [is_nan]; discriminate);
    try (destruct sb; cbn [is_nan]; discriminate).
  - destruct sa, sb; cbn [is_nan]; try discriminate.
  - destruct sa, sb; cbn [is_nan]; try discriminate; intros _.
    + right; right; right. split; reflexivity.
    + right; right; left. split; reflexivity.
  - rewrite binary_normalize_not_nan. discriminate.
Qed.

(** ** What each method leaves alone *)

Section Frames.

Variable m : Modal.

Lemma updateImageTransform_frame :
  options (updateImageTransform m) = options m /\
  scale (updateImageTransform m) = scale m /\
  translateX (updateImageTransform m) = translateX m /\
  translateY (updateImageTransform m) = translateY m /\
  isDragging (updateImageTransform m) = isDragging m /\
  listeners (updateImageTransform m) = listeners m.
Proof. case_write; repeat split. Qed.

Lemma resetZoom_identity : identity_transform (resetZoom m).
Proof. repeat split. Qed.

Lemma resetZoom_frame :
  options (resetZoom m) = options m /\
  isDragging (resetZoom m) = isDragging m /\
  listeners (resetZoom m) = listeners m /\
  timers (resetZoom m) = timers m /\
  modal_display (dom (resetZoom m)) = modal_display (dom m) /\
  body_overflow (dom (resetZoom m)) = body_overflow (dom m).
Proof. repeat split. Qed.

Lemma zoom_disabled (delta : number) :
  enableZoom (options m) = false -> zoom delta m = m.
Proof. intros H. unfold zoom. rewrite H. reflexivity. Qed.

Lemma zoom_enabled (delta : number) :
  enableZoom (options m) = true ->
  scale (zoom delta m) = clamp_scale m delta /\
  (strict_eq (clamp_scale m delta) one = true ->
   translateX (zoom delta m) = zero /\ translateY (zoom delta m) = zero) /\
  (strict_eq (clamp_scale m delta) one = false ->
   translateX (zoom delta m) = translateX m /\
   translateY (zoom delta m) = translateY m).
Proof.
  intros H. unfold zoom, clamp_scale. rewrite H. cbn [negb].
  set (c := Math_min _ _).
  cbn [scale set_scale].
  destruct (strict_eq c one); case_write; repeat split; intros; try discriminate; reflexivity.
Qed.

Lemma zoom_frame (delta : number) :
  options (zoom delta m) = options m /\
  isDragging (zoom delta m) = isDragging m /\
  startX (zoom delta m) = startX m /\
  startY (zoom delta m) = startY m /\
  listeners (zoom delta m) = listeners m /\
  timers (zoom delta m) = timers m /\
  now (zoom delta m) = now m /\
  currentImage (zoom delta m) = currentImage m.
Proof.
  unfold zoom. destruct (enableZoom (options m)); cbn [negb].
  - set (c := Math_min _ _). cbn [scale set_scale].
    destruct (strict_eq c one); case_write; repeat split.
  - repeat split.
Qed.

Lemma open_frame (img : Image) :
  options (open img m) = options m /\
  scale (open img m) = scale m /\
  translateX (open img m) = translateX m /\
  translateY (open img m) = translateY m /\
  isDragging (open img m) = isDragging m /\
  listeners (open img m) = listeners m.
Proof.
  unfold open. cbn [options set_currentImage set_modalImg_src set_dom].
  destruct (showCaption (options m)); repeat split.
Qed.

Lemma close_frame :
  options (close m) = options m /\
  scale (close m) = scale m /\
  translateX (close m) = translateX m /\
  translateY (close m) = translateY m /\
  isDragging (close m) = isDragging m /\
  listeners (close m) = listeners m /\
  modal_display (dom (close m)) = modal_display (dom m) /\
  body_overflow (dom (close m)) = body_overflow (dom m).
Proof. repeat split. Qed.

End Frames.

(** ** Opening does not touch the transform *)

(** C1, as stated, fails: [open] on an instance that shows a zoomed image
    leaves the scale at 1.1. *)
Lemma open_keeps_zoom_counterexample :
  scale zoomed_cat = S754_finite false 4953959590107546 (-52) /\
  scale (open dog zoomed_cat) = S754_finite false 4953959590107546 (-52) /\
  strict_eq (scale (open dog zoomed_cat)) one = false /\
  ~ identity_transform (open dog zoomed_cat).
Proof.
  repeat split; try (vm_compute; reflexivity).
  intros [H _]. vm_compute in H. discriminate H.
Qed.

(** C1, amended: [open] leaves [scale], [translateX] and [translateY] as
    they are, so the transform is the identity after [open] on a fresh
    instance and on one whose transform was just reset, as the callback of
    [close] does. *)
Theorem open_leaves_transform (img : Image) (m : Modal) (p : OptionsPatch) :
  scale (open img m) = scale m /\
  translateX (open img m) = translateX m /\
  translateY (open img m) = translateY m /\
  identity_transform (open img (constructor p)) /\
  identity_transform (open img (run_task FinishClose m)).
Proof.
  destruct (open_frame m img) as (_ & Hs & Hx & Hy & _).
  repeat split; try assumption.
  - apply (open_frame (constructor p) img).
  - apply (open_frame (constructor p) img).
  - apply (open_frame (constructor p) img).
  - destruct (open_frame (run_task FinishClose m) img) as (_ & -> & _). reflexivity.
  - destruct (open_frame (run_task FinishClose m) img) as (_ & _ & -> & _). reflexivity.
  - destruct (open_frame (run_task FinishClose m) img) as (_ & _ & _ & -> & _). reflexivity.
Qed.

(** ** The scale stays in [[1, maxZoom]] *)

Lemma leb_pos_infinity (hi : number) :
  leb pos_infinity hi = true -> hi = pos_infinity.
Proof.
  unfold leb, SFleb, pos_infinity.
  destruct hi as [s|s| |s m e]; cbn [SFcompare]; try discriminate.
  destruct s; [discriminate | reflexivity].
Qed.

Lemma identity_in_range (m : Modal) :
  scale m = one -> leb one (maxZoom (options m)) = true -> scale_in_range m.
Proof.
  intros Hs Hhi. unfold scale_in_range. rewrite Hs. split; [|assumption].
  vm_compute. reflexivity.
Qed.

(** One call of [zoom] keeps the scale in range, unless the sum is NaN. *)
Lemma zoom_in_range (delta : number) (m : Modal) :
  leb one (maxZoom (options m)) = true ->
  scale_in_range m ->
  is_nan delta = false ->
  maxZoom (options m) <> pos_infinity \/ delta <> neg_infinity ->
  scale_in_range (zoom delta m).
Proof.
  intros Hhi [Hlo Hup] Hd Hinf.
  destruct (enableZoom (options m)) eqn:Hen.
  2:{ rewrite (zoom_disabled m delta Hen). split; assumption. }
  unfold scale_in_range.
  destruct (zoom_frame m delta) as (-> & _).
  destruct (zoom_enabled m delta Hen) as (-> & _).
  unfold clamp_scale.
  assert (Hsum : is_nan (add (scale m) delta) = false).
  { destruct (is_nan (add (scale m) delta)) eqn:E; [|reflexivity].
    destruct (leb_not_nan _ _ Hlo) as [_ Hs].
    destruct (add_nan _ _ E) as [H | [H | [[H1 H2] | [H1 H2]]]].
    - congruence.
    - congruence.
    - rewrite H1 in Hup. apply leb_pos_infinity in Hup.
      destruct Hinf; contradiction.
    - rewrite H1 in Hlo. vm_compute in Hlo. discriminate Hlo. }
  destruct (Math_max_lower one (add (scale m) delta) eq_refl Hsum) as [Hmax _].
  apply Math_min_clamps; assumption.
Qed.

(** C2, as stated, fails: a NaN delta makes the scale NaN, which is
    neither at least [1] nor at most [maxZoom]. *)
Lemma zoom_nan_counterexample :
  scale (constructor no_options) = one /\
  leb one (maxZoom (options (constructor no_options))) = true /\
  scale (zooms [nan] (constructor no_options)) = nan /\
  leb one (scale (zooms [nan] (constructor no_options))) = false /\
  ~ scale_in_range (zooms [nan] (constructor no_options)).
Proof.
  repeat split; try (vm_compute; reflexivity).
  intros [H _]. vm_compute in H. discriminate H.
Qed.

(** C2, amended: from a state with [scale = 1] and [maxZoom >= 1], any
    sequence of [zoom] calls whose deltas are not NaN and, when [maxZoom] is
    [+Infinity], not [-Infinity] either, ends with [1 <= scale <= maxZoom]. *)
Theorem zooms_in_range (deltas : list number) (m : Modal) :
  scale m = one ->
  leb one (maxZoom (options m)) = true ->
  Forall (fun delta => is_nan delta = false) deltas ->
  maxZoom (options m) <> pos_infinity \/
    Forall (fun delta => delta <> neg_infinity) deltas ->
  scale_in_range (zooms deltas m).
Proof.
  intros Hs Hhi Hnan Hinf.
  pose proof (identity_in_range m Hs Hhi) as Hr. clear Hs.
  revert m Hhi Hinf Hr.
  induction Hnan as [|delta deltas Hd _ IH]; intros m Hhi Hinf Hr; [exact Hr|].
  cbn [zooms fold_left]. apply IH.
  - destruct (zoom_frame m delta) as (-> & _). exact Hhi.
  - destruct (zoom_frame m delta) as (-> & _).
    destruct Hinf as [H | H]; [left; exact H | right].
    inversion H; assumption.
  - apply zoom_in_range; try assumption.
    destruct Hinf as [H | H]; [left; exact H | right].
    inversion H; assumption.
Qed.

Lemma zooms_in_range_witness :
  scale_in_range
    (zooms [tenth; pos_infinity; neg_tenth; of_Z (-7)] (constructor no_options)).
Proof.
  apply zooms_in_range.
  - reflexivity.
  - vm_compute. reflexivity.
  - repeat constructor.
  - left. discriminate.
Defined.

(** The scenario of the specification: with [maxZoom = 3], twenty-five
    steps of [0.1] end at exactly [3]. *)
Example zoom_in_25_steps :
  scale (zooms (repeat tenth 25) (constructor (only_maxZoom three))) = three.
Proof. vm_compute. reflexivity. Qed.

(** Why [-Infinity] is excluded when [maxZoom] is [+Infinity]: the scale
    can then reach [+Infinity], and [Infinity + -Infinity] is NaN. *)
Example zoom_opposite_infinities :
  scale (zooms [pos_infinity; neg_infinity]
           (constructor (only_maxZoom pos_infinity))) = nan.
Proof. vm_compute. reflexivity. Qed.

(** ** No pan at scale 1 *)

Section PanInvariant.

Variable m : Modal.
Hypothesis Hinv : pan_invariant m.

Lemma resetZoom_pan_invariant : pan_invariant (resetZoom m).
Proof. intros _. split; reflexivity. Qed.

Lemma zoom_pan_invariant (delta : number) : pan_invariant (zoom delta m).
Proof.
  destruct (enableZoom (options m)) eqn:Hen.
  - destruct (zoom_enabled m delta Hen) as (Hs & Hone & _).
    unfold pan_invariant. rewrite Hs. exact Hone.
  - rewrite (zoom_disabled m delta Hen). exact Hinv.
Qed.

Lemma mousedown_pan_invariant (x y : number) :
  pan_invariant (mousedown_listener x y m).
Proof.
  unfold mousedown_listener. destruct (gtb (scale m) one); exact Hinv.
Qed.

Lemma mousemove_pan_invariant (x y : number) :
  pan_invariant (mousemove_listener x y m).
Proof.
  unfold mousemove_listener.
  destruct (isDragging m); cbn [andb]; [|exact Hinv].
  destruct (gtb (scale m) one) eqn:Hgt; [|exact Hinv].
  unfold pan_invariant. case_write; intros Hone; cbn in Hone;
    rewrite (gtb_not_strict_eq _ _ Hgt) in Hone; discriminate Hone.
Qed.

Lemma mouseup_pan_invariant : pan_invariant (mouseup_listener m).
Proof.
  unfold mouseup_listener. destruct (isDragging m); exact Hinv.
Qed.

Lemma open_pan_invariant (img : Image) : pan_invariant (open img m).
Proof.
  unfold pan_invariant.
  destruct (open_frame m img) as (_ & -> & -> & -> & _). exact Hinv.
Qed.

Lemma close_pan_invariant : pan_invariant (close m).
Proof. exact Hinv. Qed.

Lemma run_task_pan_invariant (t : Task) : pan_invariant (run_task t m).
Proof.
  destruct t; [exact Hinv|]. intros _. split; reflexivity.
Qed.

Lemma apply_op_pan_invariant (op : TransformOp) : pan_invariant (apply_op m op).
Proof.
  destruct op; cbn [apply_op].
  - apply zoom_pan_invariant.
  - apply mousedown_pan_invariant.
  - apply mousemove_pan_invariant.
  - apply mouseup_pan_invariant.
  - apply resetZoom_pan_invariant.
Qed.

End PanInvariant.

Lemma run_tasks_pan_invariant (q : list (Z * Task)) :
  forall m, pan_invariant m -> pan_invariant (run_tasks q m).
Proof.
  induction q as [|[due t] q IH]; intros m H; [exact H|].
  cbn [run_tasks fold_left snd]. apply IH, run_task_pan_invariant, H.
Qed.

Lemma dispatch_pan_invariant (e : Event) (m : Modal) :
  pan_invariant m -> pan_invariant (dispatch e m).
Proof.
  intros H. destruct e as [target closest excluded|key|dy|x y|x y| |];
    cbn [dispatch]; try (destruct (zoom_bound (listeners m)); [|exact H]).
  - unfold click_listeners.
    assert (H1 : pan_invariant
                   match target with
                   | OnBackdrop => if closeOnClick_bound (listeners m) then close m else m
                   | OnCloseButton => close m
                   | OnOther => m
                   end).
    { destruct target; try destruct (closeOnClick_bound (listeners m)); exact H. }
    destruct closest as [img|]; [|exact H1].
    destruct (negb _); [|exact H1].
    apply open_pan_invariant, H1.
  - unfold keydown_listener.
    destruct (closeOnEsc_bound (listeners m)); [|exact H].
    destruct (_ && _); exact H.
  - apply zoom_pan_invariant, H.
  - apply mousedown_pan_invariant, H.
  - apply mousemove_pan_invariant, H.
  - apply mouseup_pan_invariant, H.
  - apply resetZoom_pan_invariant.
Qed.

Lemma step_pan_invariant (a : Action) (m : Modal) :
  pan_invariant m -> pan_invariant (step m a).
Proof.
  intros H. destruct a; cbn [step].
  - apply open_pan_invariant, H.
  - exact H.
  - apply zoom_pan_invariant, H.
  - apply resetZoom_pan_invariant.
  - exact H.
  - unfold destroy. destruct (modal_attached (dom m)); exact H.
  - apply dispatch_pan_invariant, H.
  - unfold elapse. apply run_tasks_pan_invariant. exact H.
Qed.

(** The invariant holds along every run of a new instance: method calls,
    events and timers in any order. *)
Lemma run_pan_invariant (acts : list Action) :
  forall m, pan_invariant m -> pan_invariant (run acts m).
Proof.
  induction acts as [|a acts IH]; intros m H; [exact H|].
  cbn [run fold_left]. apply IH, step_pan_invariant, H.
Qed.

Lemma apply_ops_pan_invariant (ops : list TransformOp) :
  forall m, pan_invariant m -> pan_invariant (apply_ops ops m).
Proof.
  induction ops as [|op ops IH]; intros m H; [exact H|].
  cbn [apply_ops fold_left]. apply IH, apply_op_pan_invariant, H.
Qed.

(** C3: in every state the transform engine reaches from the identity by
    zoom steps, drag phases and resets in any order, [scale === 1] implies
    [translateX = 0] and [translateY = 0]. *)
Theorem no_pan_at_scale_one (ops : list TransformOp) (m : Modal) :
  identity_transform m ->
  strict_eq (scale (apply_ops ops m)) one = true ->
  translateX (apply_ops ops m) = zero /\ translateY (apply_ops ops m) = zero.
Proof.
  intros (_ & Hx & Hy). apply apply_ops_pan_invariant.
  intros _. split; assumption.
Qed.

Lemma no_pan_at_scale_one_witness :
  let ops := [ApplyZoomDelta tenth; BeginDrag (of_Z 100) (of_Z 40);
              ContinueDrag (of_Z 130) (of_Z 20); ApplyZoomDelta neg_tenth;
              ContinueDrag (of_Z 90) (of_Z 90); EndDrag] in
  translateX (apply_ops ops (constructor no_options)) = zero /\
  translateY (apply_ops ops (constructor no_options)) = zero.
Proof.
  apply (no_pan_at_scale_one _ (constructor no_options)).
  - repeat split.
  - vm_compute. reflexivity.
Defined.

(** ** Timers and visibility *)

Lemma has_task_enqueue_filter (f : Z * Task -> bool) (t t' : Task) (due : Z) :
  forall q,
    has_task t (filter f (enqueue due t' q)) =
    (f (due, t') && Task_eqb t' t) || has_task t (filter f q).
Proof.
  induction q as [|[due0 t0] q IH]; cbn [enqueue filter].
  - destruct (f (due, t')); cbn; try rewrite orb_false_r; reflexivity.
  - destruct (due0 <=? due); cbn [filter].
    + destruct (f (due0, t0)); [|exact IH].
      unfold has_task in *. cbn [existsb snd]. rewrite IH.
      destruct (Task_eqb t0 t), (f (due, t') && Task_eqb t' t); reflexivity.
    + destruct (f (due, t')); reflexivity.
Qed.

Lemma has_task_filter_false (f : Z * Task -> bool) (t : Task) :
  forall q, has_task t q = false -> has_task t (filter f q) = false.
Proof.
  unfold has_task.
  induction q as [|[due0 t0] q IH]; cbn [filter existsb snd]; [reflexivity|].
  intros H. apply orb_false_iff in H as [H0 Hq].
  destruct (f (due0, t0)); cbn [existsb snd]; [rewrite H0|]; auto.
Qed.

(** Once a [FinishClose] callback has run the modal is hidden; [FadeIn]
    callbacks do not change the layout. *)
Lemma isOpen_run_tasks (q : list (Z * Task)) :
  forall m,
    isOpen (run_tasks q m) =
    if has_task FinishClose q then false else isOpen m.
Proof.
  unfold has_task.
  induction q as [|[due t] q IH]; intros m; [reflexivity|].
  cbn [run_tasks fold_left existsb snd]. fold (run_tasks q (run_task t m)).
  rewrite IH. destruct t; cbn [Task_eqb orb run_task].
  - reflexivity.
  - destruct (existsb _ q); reflexivity.
Qed.

Lemma isOpen_open (img : Image) (m : Modal) : isOpen (open img m) = true.
Proof.
  unfold open. cbn [options set_currentImage set_modalImg_src set_dom].
  destruct (showCaption (options m)); reflexivity.
Qed.

Lemma timers_open (img : Image) (m : Modal) :
  timers (open img m) = enqueue (now m + 10) FadeIn (timers m) /\
  now (open img m) = now m.
Proof.
  unfold open. cbn [options set_currentImage set_modalImg_src set_dom].
  destruct (showCaption (options m)); split; reflexivity.
Qed.


Lemma timer_delay_in_range (delay : Z) :
  -2147483648 <= delay < 2147483648 -> timer_delay delay = Z.max 0 delay.
Proof.
  intros H. unfold timer_delay, to_int32.
  rewrite Z.mod_small by lia. f_equal. lia.
Qed.

Lemma timers_close (m : Modal) :
  timers (close m) =
    enqueue (now m + timer_delay (animationDuration (options m)))
      FinishClose (timers m) /\
  now (close m) = now m.
Proof. split; reflexivity. Qed.

(** Why the range: a delay of [2^31] wraps to a negative number, which
    counts as [0], so the close timer fires at once. *)
Example close_timer_wraps :
  isOpen (elapse 0 (close (open cat
            (constructor (only_animationDuration 2147483648))))) = false.
Proof. vm_compute. reflexivity. Qed.



(** ** The listeners are fixed at construction *)

Lemma listeners_run_tasks (q : list (Z * Task)) :
  forall m, listeners (run_tasks q m) = listeners m.
Proof.
  induction q as [|[due t] q IH]; intros m; [reflexivity|].
  cbn [run_tasks fold_left snd]. fold (run_tasks q (run_task t m)).
  rewrite IH. destruct t; reflexivity.
Qed.

Lemma listeners_dispatch (e : Event) (m : Modal) :
  listeners (dispatch e m) = listeners m.
Proof.
  destruct e as [target closest excluded|key|dy|x y|x y| |];
    cbn [dispatch]; try (destruct (zoom_bound (listeners m)); [|reflexivity]).
  - unfold click_listeners.
    set (m1 := match target with
               | OnBackdrop => _
               | OnCloseButton => _
               | OnOther => _
               end).
    assert (H1 : listeners m1 = listeners m).
    { subst m1. destruct target;
        try destruct (closeOnClick_bound (listeners m)); reflexivity. }
    destruct closest as [img|]; [|exact H1].
    destruct (negb _); [|exact H1].
    destruct (open_frame m1 img) as (_ & _ & _ & _ & _ & ->). exact H1.
  - unfold keydown_listener.
    destruct (closeOnEsc_bound (listeners m)); [|reflexivity].
    destruct (_ && _); reflexivity.
  - apply (zoom_frame m).
  - unfold mousedown_listener. destruct (gtb _ _); reflexivity.
  - unfold mousemove_listener. destruct (_ && _); case_write; reflexivity.
  - unfold mouseup_listener. destruct (isDragging m); reflexivity.
  - reflexivity.
Qed.

Lemma listeners_step (a : Action) (m : Modal) :
  listeners (step m a) = listeners m.
Proof.
  destruct a; cbn [step]; try reflexivity.
  - apply (open_frame m).
  - apply (zoom_frame m).
  - unfold destroy. destruct (modal_attached (dom m)); reflexivity.
  - apply listeners_dispatch.
  - unfold elapse. rewrite listeners_run_tasks. reflexivity.
Qed.

Lemma listeners_run (acts : list Action) :
  forall m, listeners (run acts m) = listeners m.
Proof.
  induction acts as [|a acts IH]; intros m; [reflexivity|].
  cbn [run fold_left]. fold (run acts (step m a)).
  rewrite IH. apply listeners_step.
Qed.

(** ** Double-click *)

(** C5, as stated, fails: on an instance built with [enableZoom: false]
    no [dblclick] listener exists, so a double-click changes nothing, also
    when the scale is 1.1. *)
Lemma dblclick_unbound_counterexample :
  scale late_zoom = S754_finite false 4953959590107546 (-52) /\
  dispatch DblClick late_zoom = late_zoom /\
  strict_eq (scale (dispatch DblClick late_zoom)) one = false /\
  ~ identity_transform (dispatch DblClick late_zoom).
Proof.
  repeat split; try (vm_compute; reflexivity).
  intros [H _]. vm_compute in H. discriminate H.
Qed.

(** C5, amended: on an instance constructed with [enableZoom] set, in
    every state it reaches (whatever the scale and the value [enableZoom]
    has by then), a double-click on the image calls [resetZoom] and leaves
    [scale = 1], [translateX = translateY = 0]. *)
Theorem dblclick_resets (p : OptionsPatch) (acts : list Action) :
  enableZoom (spread defaults p) = true ->
  dispatch DblClick (run acts (constructor p)) =
    resetZoom (run acts (constructor p)) /\
  identity_transform (dispatch DblClick (run acts (constructor p))).
Proof.
  intros H.
  assert (E : dispatch DblClick (run acts (constructor p)) =
              resetZoom (run acts (constructor p))).
  { cbn [dispatch]. rewrite listeners_run.
    change (zoom_bound (listeners (constructor p)))
      with (enableZoom (spread defaults p)).
    rewrite H. reflexivity. }
  split; [exact E|]. rewrite E. apply resetZoom_identity.
Qed.

Lemma dblclick_resets_witness :
  identity_transform
    (dispatch DblClick
       (run [CallOpen cat; Dispatch (Wheel (of_Z (-100)));
             CallUpdateOptions (only_enableZoom false)]
          (constructor no_options))).
Proof.
  apply (dblclick_resets no_options). reflexivity.
Defined.

(** ** Dragging *)

(** C6: at a scale above 1, the start of a drag at [(x0, y0)] records the
    anchor [(x0 - translateX, y0 - translateY)], and the next move to
    [(x, y)] sets the pan to [(x, y)] minus that anchor. *)
Theorem drag_follows_anchor (m : Modal) (x0 y0 x y : number) :
  gtb (scale m) one = true ->
  let anchorX0 := sub x0 (translateX m) in
  let anchorY0 := sub y0 (translateY m) in
  let m1 := mousedown_listener x0 y0 m in
  let m2 := mousemove_listener x y m1 in
  isDragging m1 = true /\
  startX m1 = anchorX0 /\
  startY m1 = anchorY0 /\
  translateX m2 = sub x anchorX0 /\
  translateY m2 = sub y anchorY0 /\
  scale m2 = scale m.
Proof.
  intros Hgt. unfold mousedown_listener. rewrite Hgt.
  unfold mousemove_listener.
  cbn [isDragging scale set_isDragging set_startX set_startY
       set_modalImg_cursor set_dom andb].
  rewrite Hgt. case_write; repeat split.
Qed.

Lemma drag_follows_anchor_witness :
  let m := zoom tenth (constructor no_options) in
  let m2 :=
    mousemove_listener (of_Z 130) (of_Z 20)
      (mousedown_listener (of_Z 100) (of_Z 40) m) in
  translateX m2 = of_Z 30 /\ translateY m2 = of_Z (-20).
Proof.
  destruct (drag_follows_anchor (zoom tenth (constructor no_options))
              (of_Z 100) (of_Z 40) (of_Z 130) (of_Z 20))
    as (_ & _ & _ & Hx & Hy & _).
  - vm_compute. reflexivity.
  - split; [rewrite Hx | rewrite Hy]; vm_compute; reflexivity.
Defined.

(** ** Switching zoom off and on *)

Lemma options_run_tasks (q : list (Z * Task)) :
  forall m, options (run_tasks q m) = options m.
Proof.
  induction q as [|[due t] q IH]; intros m; [reflexivity|].
  cbn [run_tasks fold_left snd]. fold (run_tasks q (run_task t m)).
  rewrite IH. destruct t; reflexivity.
Qed.

Lemma options_dispatch (e : Event) (m : Modal) :
  options (dispatch e m) = options m.
Proof.
  destruct e as [target closest excluded|key|dy|x y|x y| |];
    cbn [dispatch]; try (destruct (zoom_bound (listeners m)); [|reflexivity]).
  - unfold click_listeners.
    set (m1 := match target with
               | OnBackdrop => _
               | OnCloseButton => _
               | OnOther => _
               end).
    assert (H1 : options m1 = options m).
    { subst m1. destruct target;
        try destruct (closeOnClick_bound (listeners m)); reflexivity. }
    destruct closest as [img|]; [|exact H1].
    destruct (negb _); [|exact H1].
    destruct (open_frame m1 img) as (-> & _). exact H1.
  - unfold keydown_listener.
    destruct (closeOnEsc_bound (listeners m)); [|reflexivity].
    destruct (_ && _); reflexivity.
  - apply (zoom_frame m).
  - unfold mousedown_listener. destruct (gtb _ _); reflexivity.
  - unfold mousemove_listener. destruct (_ && _); case_write; reflexivity.
  - unfold mouseup_listener. destruct (isDragging m); reflexivity.
  - reflexivity.
Qed.

Lemma step_keeps_zoom_off (a : Action) (m : Modal) :
  enableZoom (options m) = false ->
  keeps_zoom_off a = true ->
  enableZoom (options (step m a)) = false.
Proof.
  intros Hoff Ha. destruct a; cbn [step].
  - destruct (open_frame m img) as (-> & _). exact Hoff.
  - exact Hoff.
  - destruct (zoom_frame m delta) as (-> & _). exact Hoff.
  - exact Hoff.
  - cbn. cbn in Ha. destruct (p_enableZoom p) as [[|]|];
      [discriminate Ha | reflexivity | exact Hoff].
  - unfold destroy. destruct (modal_attached (dom m)); exact Hoff.
  - rewrite options_dispatch. exact Hoff.
  - unfold elapse. rewrite options_run_tasks. exact Hoff.
Qed.

Lemma run_keeps_zoom_off (acts : list Action) :
  forall m,
    enableZoom (options m) = false ->
    forallb keeps_zoom_off acts = true ->
    enableZoom (options (run acts m)) = false.
Proof.
  induction acts as [|a acts IH]; intros m Hoff Hacts; [exact Hoff|].
  cbn [forallb] in Hacts. apply andb_true_iff in Hacts as [Ha Hacts].
  cbn [run fold_left]. fold (run acts (step m a)).
  apply IH; [apply step_keeps_zoom_off|]; assumption.
Qed.

(** C7: after [updateOptions] with [enableZoom: false], and for as long as
    no later [updateOptions] sets it to [true], a wheel event leaves the
    scale, and the whole state, as it is. *)
Theorem wheel_ignored_when_disabled
  (p : OptionsPatch) (acts : list Action) (deltaY : number) (m : Modal) :
  p_enableZoom p = Some false ->
  forallb keeps_zoom_off acts = true ->
  let m' := run acts (updateOptions p m) in
  dispatch (Wheel deltaY) m' = m' /\
  scale (dispatch (Wheel deltaY) m') = scale m'.
Proof.
  intros Hp Hacts m'.
  assert (Hoff : enableZoom (options m') = false).
  { apply run_keeps_zoom_off; [|exact Hacts]. cbn. rewrite Hp. reflexivity. }
  assert (E : dispatch (Wheel deltaY) m' = m').
  { cbn [dispatch]. destruct (zoom_bound (listeners m')); [|reflexivity].
    unfold wheel_listener. apply zoom_disabled, Hoff. }
  rewrite E. split; reflexivity.
Qed.

Lemma wheel_ignored_when_disabled_witness :
  let m' :=
    run [Dispatch (Wheel (of_Z 100)); Dispatch (MouseDown (of_Z 5) (of_Z 5))]
      (updateOptions (only_enableZoom false) zoomed_cat) in
  dispatch (Wheel (of_Z (-100))) m' = m' /\
  scale (dispatch (Wheel (of_Z (-100))) m') = scale m'.
Proof.
  exact (wheel_ignored_when_disabled (only_enableZoom false)
           [Dispatch (Wheel (of_Z 100)); Dispatch (MouseDown (of_Z 5) (of_Z 5))]
           (of_Z (-100)) zoomed_cat eq_refl eq_refl).
Defined.

(** C9: on an instance constructed with [enableZoom: false], after
    [updateOptions] with [enableZoom: true] and whatever happens next, a
    wheel, mousedown, mousemove, mouseup or double-click event changes
    nothing: no listener for it was registered. *)
Theorem late_enable_binds_nothing
  (p : OptionsPatch) (acts : list Action) (e : Event) :
  enableZoom (spread defaults p) = false ->
  zoom_event e = true ->
  let m := run acts (updateOptions (only_enableZoom true) (constructor p)) in
  enableZoom (options (updateOptions (only_enableZoom true) (constructor p))) = true /\
  dispatch e m = m /\
  scale (dispatch e m) = scale m /\
  translateX (dispatch e m) = translateX m /\
  translateY (dispatch e m) = translateY m /\
  isDragging (dispatch e m) = isDragging m.
Proof.
  intros Hoff He m.
  assert (Hb : zoom_bound (listeners m) = false).
  { subst m. rewrite listeners_run. exact Hoff. }
  assert (E : dispatch e m = m).
  { destruct e; try discriminate He; cbn [dispatch]; rewrite Hb; reflexivity. }
  rewrite E. repeat split.
Qed.

Lemma late_enable_binds_nothing_witness :
  let m :=
    run [CallOpen cat; Elapse 10]
      (updateOptions (only_enableZoom true) (constructor (only_enableZoom false))) in
  dispatch (Wheel (of_Z (-100))) m = m.
Proof.
  apply (late_enable_binds_nothing (only_enableZoom false)
           [CallOpen cat; Elapse 10] (Wheel (of_Z (-100))));
    reflexivity.
Defined.

(** ** Closing a closed modal *)

Lemma run_task_closed_at_rest (t : Task) (m : Modal) :
  closed_at_rest m -> closed_at_rest (run_task t m).
Proof.
  intros H. destruct t; [exact H|].
  repeat split.
Qed.

Lemma run_tasks_closed_at_rest (q : list (Z * Task)) :
  forall m, closed_at_rest m -> closed_at_rest (run_tasks q m).
Proof.
  induction q as [|[due t] q IH]; intros m H; [exact H|].
  cbn [run_tasks fold_left snd]. apply IH, run_task_closed_at_rest, H.
Qed.

Lemma observable_closed_at_rest (m : Modal) :
  closed_at_rest m -> observable m = (false, false, one, zero, zero).
Proof.
  intros (Ho & Hs & Hsc & Hx & Hy). unfold observable.
  rewrite Ho, Hs, Hsc, Hx, Hy. reflexivity.
Qed.

(** C8: [close] on a modal that is hidden, with page scrolling not
    suspended and the transform at the identity, changes nothing a user can
    observe, neither while the fade-out delay runs nor after it. *)
Theorem close_when_closed (m : Modal) (dt : Z) :
  isOpen m = false ->
  scroll_suspended m = false ->
  identity_transform m ->
  observable (close m) = observable m /\
  observable (elapse dt (close m)) = observable m.
Proof.
  intros Ho Hs Hid.
  assert (H : closed_at_rest m) by (repeat split; try assumption; apply Hid).
  split; [reflexivity|].
  rewrite (observable_closed_at_rest m H).
  apply observable_closed_at_rest.
  unfold elapse. apply run_tasks_closed_at_rest. exact H.
Qed.

Lemma close_when_closed_witness :
  observable (elapse 300 (close (constructor no_options))) =
  observable (constructor no_options).
Proof.
  apply (close_when_closed (constructor no_options) 300);
    [reflexivity | reflexivity | repeat split].
Defined.

(** ** What [zoom] changes *)

(** The exact effect of [zoom] on the fields of the instance, in any
    state. *)
Lemma zoom_effect (delta : number) (m : Modal) :
  isDragging (zoom delta m) = isDragging m /\
  startX (zoom delta m) = startX m /\
  startY (zoom delta m) = startY m /\
  options (zoom delta m) = options m /\
  currentImage (zoom delta m) = currentImage m /\
  listeners (zoom delta m) = listeners m /\
  timers (zoom delta m) = timers m /\
  isOpen (zoom delta m) = isOpen m /\
  scale (zoom delta m) =
    (if enableZoom (options m) then clamp_scale m delta else scale m) /\
  translateX (zoom delta m) =
    (if enableZoom (options m) && strict_eq (scale (zoom delta m)) one
     then zero else translateX m) /\
  translateY (zoom delta m) =
    (if enableZoom (options m) && strict_eq (scale (zoom delta m)) one
     then zero else translateY m).
Proof.
  unfold zoom, clamp_scale.
  destruct (enableZoom (options m)); cbn [negb andb]; [|repeat split].
  set (c := Math_min _ _). cbn [scale set_scale].
  destruct (strict_eq c one) eqn:E; case_write;
    cbn [scale set_scale set_translateX set_translateY
         set_modalImg_transform set_dom];
    rewrite E; repeat split.
Qed.

(** C10: in every state of an instance (where [pan_invariant] holds, see
    [run_pan_invariant]) and for every delta, [zoom] never touches
    [isDragging] (nor the drag anchor, the options, the listeners, the
    timers or the layout of the modal); the scale becomes the clamped sum,
    or is kept when zoom is disabled; [translateX] and [translateY] keep
    their values when the resulting scale is not 1 and are 0 when it is. *)
Theorem zoom_changes_scale_only (delta : number) (m : Modal) :
  pan_invariant m ->
  isDragging (zoom delta m) = isDragging m /\
  startX (zoom delta m) = startX m /\
  startY (zoom delta m) = startY m /\
  options (zoom delta m) = options m /\
  currentImage (zoom delta m) = currentImage m /\
  listeners (zoom delta m) = listeners m /\
  timers (zoom delta m) = timers m /\
  isOpen (zoom delta m) = isOpen m /\
  scale (zoom delta m) =
    (if enableZoom (options m) then clamp_scale m delta else scale m) /\
  (strict_eq (scale (zoom delta m)) one = false ->
   translateX (zoom delta m) = translateX m /\
   translateY (zoom delta m) = translateY m) /\
  (strict_eq (scale (zoom delta m)) one = true ->
   translateX (zoom delta m) = zero /\ translateY (zoom delta m) = zero).
Proof.
  intros Hinv.
  destruct (zoom_effect delta m)
    as (H1 & H2 & H3 & H4 & H5 & H6 & H7 & H8 & H9 & Hx & Hy).
  repeat (split; [assumption|]).
  split; intros E.
  - rewrite Hx, Hy, E, andb_false_r. split; reflexivity.
  - apply (zoom_pan_invariant m Hinv delta), E.
Qed.

Lemma zoom_changes_scale_only_witness :
  isDragging (zoom neg_tenth zoomed_cat) = isDragging zoomed_cat /\
  scale (zoom neg_tenth zoomed_cat) = one /\
  translateX (zoom neg_tenth zoomed_cat) = zero.
Proof.
  assert (Hinv : pan_invariant zoomed_cat).
  { intros H. vm_compute in H. discriminate H. }
  destruct (zoom_changes_scale_only neg_tenth zoomed_cat Hinv)
    as (Hd & _ & _ & _ & _ & _ & _ & _ & Hs & _ & Hone).
  split; [exact Hd|]. split.
  - rewrite Hs. vm_compute. reflexivity.
  - apply Hone. vm_compute. reflexivity.
Defined.

(** * Further properties of the code *)

(** ** Invariants of runs *)

(** A property kept by every method, listener and timer callback is kept
    by every run of permitted actions. *)
Section RunInvariant.

Variable I : Modal -> Prop.
Variable ok : Action -> bool.

Hypothesis I_open : forall img m, I m -> I (open img m).
Hypothesis I_close : forall m, I m -> I (close m).
Hypothesis I_zoom :
  forall delta m, ok (CallZoom delta) = true -> I m -> I (zoom delta m).
Hypothesis I_wheel : forall deltaY m, I m -> I (wheel_listener deltaY m).
Hypothesis I_resetZoom : forall m, I m -> I (resetZoom m).
Hypothesis I_updateOptions :
  forall p m, ok (CallUpdateOptions p) = true -> I m -> I (updateOptions p m).
Hypothesis I_destroy : forall m, I m -> I (destroy m).
Hypothesis I_mousedown : forall x y m, I m -> I (mousedown_listener x y m).
Hypothesis I_mousemove : forall x y m, I m -> I (mousemove_listener x y m).
Hypothesis I_mouseup : forall m, I m -> I (mouseup_listener m).
Hypothesis I_run_task : forall t m, I m -> I (run_task t m).
Hypothesis I_clock : forall v q m, I m -> I (set_now v (set_timers q m)).

Lemma invariant_dispatch (e : Event) (m : Modal) : I m -> I (dispatch e m).
Proof.
  intros H. destruct e as [target closest excluded|key|dy|x y|x y| |];
    cbn [dispatch]; try (destruct (zoom_bound (listeners m)); [|exact H]); auto.
  - unfold click_listeners.
    set (m1 := match target with
               | OnBackdrop => _
               | OnCloseButton => _
               | OnOther => _
               end).
    assert (H1 : I m1).
    { subst m1. destruct target;
        try destruct (closeOnClick_bound (listeners m)); auto. }
    destruct closest as [img|]; [|exact H1].
    destruct (negb _); auto.
  - unfold keydown_listener.
    destruct (closeOnEsc_bound (listeners m)); [|exact H].
    destruct (_ && _); auto.
Qed.

Lemma invariant_run_tasks (q : list (Z * Task)) :
  forall m, I m -> I (run_tasks q m).
Proof.
  induction q as [|[due t] q IH]; intros m H; [exact H|].
  cbn [run_tasks fold_left snd]. apply IH, I_run_task, H.
Qed.

Lemma invariant_step (a : Action) (m : Modal) :
  ok a = true -> I m -> I (step m a).
Proof.
  intros Ha H. destruct a; cbn [step]; auto.
  - apply invariant_dispatch, H.
  - unfold elapse. apply invariant_run_tasks, I_clock, H.
Qed.

Lemma invariant_run (acts : list Action) :
  forall m, forallb ok acts = true -> I m -> I (run acts m).
Proof.
  induction acts as [|a acts IH]; intros m Hacts H; [exact H|].
  cbn [forallb] in Hacts. apply andb_true_iff in Hacts as [Ha Hacts].
  cbn [run fold_left]. apply IH; [exact Hacts|].
  apply invariant_step; assumption.
Qed.

End RunInvariant.

Lemma forallb_any_action (acts : list Action) : forallb any_action acts = true.
Proof. induction acts as [|a acts IH]; [reflexivity | exact IH]. Qed.

(** What [open] sets and what it keeps of the page. *)
Lemma open_effect (img : Image) (m : Modal) :
  isOpen (open img m) = true /\
  scroll_suspended (open img m) = true /\
  currentImage (open img m) = Some img /\
  modalImg_src (dom (open img m)) = src img /\
  modal_attached (dom (open img m)) = modal_attached (dom m) /\
  modal_opacity (dom (open img m)) = modal_opacity (dom m) /\
  modalImg_cursor (dom (open img m)) = modalImg_cursor (dom m) /\
  modalImg_transform (dom (open img m)) = modalImg_transform (dom m).
Proof.
  unfold open. cbn [options set_currentImage set_modalImg_src set_dom].
  destruct (showCaption (options m)); repeat split.
Qed.



(** Why the condition: with [maxZoom: NaN] one wheel event makes the
    scale NaN, and the write of the transform is dropped. *)
Example nan_transform_is_dropped :
  let m := dispatch (Wheel (of_Z (-100))) (constructor (only_maxZoom nan)) in
  scale m = nan /\ modalImg_transform (dom m) = None.
Proof. vm_compute. split; reflexivity. Qed.

(** X2: along every run of a new instance the cursor over the image is
    [grabbing] exactly while [isDragging] is set. *)
Theorem cursor_tracks_drag_run (p : OptionsPatch) (acts : list Action) :
  cursor_tracks_drag (run acts (constructor p)).
Proof.
  apply (invariant_run cursor_tracks_drag any_action);
    try apply forallb_any_action; unfold cursor_tracks_drag.
  - intros img m H.
    destruct (open_effect img m) as (_ & _ & _ & _ & _ & _ & -> & _).
    destruct (open_frame m img) as (_ & _ & _ & _ & -> & _). exact H.
  - intros m H. exact H.
  - intros delta m _ H. destruct (zoom_effect delta m) as (-> & _).
    rewrite H. unfold zoom.
    destruct (enableZoom (options m)); cbn [negb]; [|reflexivity].
    set (c := Math_min _ _). cbn [scale set_scale].
    destruct (strict_eq c one); case_write; reflexivity.
  - intros dy m H. unfold wheel_listener.
    destruct (zoom_effect (if gtb dy zero then neg_tenth else tenth) m) as (-> & _).
    rewrite H. unfold zoom.
    destruct (enableZoom (options m)); cbn [negb]; [|reflexivity].
    set (c := Math_min _ _). cbn [scale set_scale].
    destruct (strict_eq c one); case_write; reflexivity.
  - intros m H. exact H.
  - intros q m _ H. exact H.
  - intros m. unfold destroy. destruct (modal_attached (dom m)); exact (fun H => H).
  - intros x y m H. unfold mousedown_listener.
    destruct (gtb (scale m) one); [reflexivity | exact H].
  - intros x y m H. unfold mousemove_listener.
    destruct (isDragging m && gtb (scale m) one); case_write; exact H.
  - intros m H. unfold mouseup_listener.
    destruct (isDragging m) eqn:E; [reflexivity | rewrite E; exact H].
  - intros t m H. destruct t; exact H.
  - intros v q m H. exact H.
  - cbn. destruct (override true (p_enableZoom p)); reflexivity.
Qed.

Lemma tame_zoom_delta (delta : number) :
  tame_action (CallZoom delta) = true ->
  is_nan delta = false /\ delta <> neg_infinity.
Proof.
  destruct delta as [s|[|]| |s m e]; cbn; intros H; try discriminate H;
    split; try reflexivity; discriminate.
Qed.

(** X3: on an instance constructed with [maxZoom >= 1], whatever the
    page and the user do (method calls, events, time passing), as long as
    [maxZoom] is not changed and [zoom] is not handed a NaN or [-Infinity],
    [maxZoom] stays what it was and [1 <= scale <= maxZoom] holds. *)
Theorem scale_in_range_run (p : OptionsPatch) (acts : list Action) :
  leb one (maxZoom (spread defaults p)) = true ->
  forallb tame_action acts = true ->
  maxZoom (options (run acts (constructor p))) = maxZoom (spread defaults p) /\
  scale_in_range (run acts (constructor p)).
Proof.
  intros Hhi Hacts. set (hi := maxZoom (spread defaults p)) in *.
  assert (Hz : forall delta m,
             is_nan delta = false -> delta <> neg_infinity ->
             maxZoom (options m) = hi /\ scale_in_range m ->
             maxZoom (options (zoom delta m)) = hi /\ scale_in_range (zoom delta m)).
  { intros delta m Hn Hi [Ho Hr]. split.
    - destruct (zoom_frame m delta) as (-> & _). exact Ho.
    - apply zoom_in_range; auto. rewrite Ho. exact Hhi. }
  assert (Hreset : forall m, maxZoom (options m) = hi ->
             maxZoom (options (resetZoom m)) = hi /\ scale_in_range (resetZoom m)).
  { intros m Ho. split; [exact Ho|]. apply identity_in_range; [reflexivity|].
    change (options (resetZoom m)) with (options m). rewrite Ho. exact Hhi. }
  apply (invariant_run
           (fun m => maxZoom (options m) = hi /\ scale_in_range m) tame_action);
    try exact Hacts.
  - intros img m [Ho Hr]. unfold scale_in_range.
    destruct (open_frame m img) as (-> & -> & _). split; assumption.
  - intros m H. exact H.
  - intros delta m Ht. destruct (tame_zoom_delta delta Ht). apply Hz; assumption.
  - intros dy m. unfold wheel_listener.
    destruct (gtb dy zero); apply Hz; try reflexivity; discriminate.
  - intros m [Ho _]. apply Hreset, Ho.
  - intros q m Hq [Ho Hr]. unfold scale_in_range. cbn in Hq.
    cbn [updateOptions options set_options scale spread maxZoom].
    destruct (p_maxZoom q); [discriminate Hq|]. split; assumption.
  - intros m. unfold destroy. destruct (modal_attached (dom m)); exact (fun H => H).
  - intros x y m. unfold mousedown_listener.
    destruct (gtb (scale m) one); exact (fun H => H).
  - intros x y m. unfold mousemove_listener.
    destruct (isDragging m && gtb (scale m) one); case_write; exact (fun H => H).
  - intros m. unfold mouseup_listener. destruct (isDragging m); exact (fun H => H).
  - intros t m [Ho Hr]. destruct t; [split; assumption|].
    apply (Hreset (set_body_overflow "" (set_modal_display "none" m))), Ho.
  - intros v q m H. exact H.
  - split; [reflexivity|]. apply identity_in_range; [reflexivity | exact Hhi].
Qed.

Lemma scale_in_range_run_witness :
  maxZoom (options (run session (constructor no_options))) =
    maxZoom (spread defaults no_options) /\
  scale_in_range (run session (constructor no_options)).
Proof.
  apply (scale_in_range_run no_options session); vm_compute; reflexivity.
Defined.

(** What [destroy] does and what it leaves in place. *)
Lemma destroy_frame (m : Modal) :
  modal_attached (dom (destroy m)) = false /\
  scroll_suspended (destroy m) = false /\
  isOpen (destroy m) = isOpen m /\
  listeners (destroy m) = listeners m /\
  timers (destroy m) = timers m /\
  options (destroy m) = options m.
Proof.
  unfold destroy.
  destruct (modal_attached (dom m)) eqn:E; cbn; rewrite ?E; repeat split.
Qed.

(** X4: page scrolling is never left suspended with the modal hidden: if
    "scroll suspended implies modal laid out" holds of a state, it holds
    after every run from it. *)
Theorem scroll_lock_never_outlives_modal (acts : list Action) (m : Modal) :
  scroll_lock_needs_open m ->
  scroll_lock_needs_open (run acts m).
Proof.
  apply (invariant_run scroll_lock_needs_open any_action);
    try apply forallb_any_action; unfold scroll_lock_needs_open.
  - intros img m0 _ _. apply isOpen_open.
  - intros m0 H. exact H.
  - intros delta m0 _ H. unfold zoom.
    destruct (enableZoom (options m0)); cbn [negb]; [|exact H].
    set (c := Math_min _ _). cbn [scale set_scale].
    destruct (strict_eq c one); case_write; exact H.
  - intros dy m0 H. unfold wheel_listener, zoom.
    destruct (enableZoom (options m0)); cbn [negb]; [|exact H].
    set (c := Math_min _ _). cbn [scale set_scale].
    destruct (strict_eq c one); case_write; exact H.
  - intros m0 H. exact H.
  - intros q m0 _ H. exact H.
  - intros m0 _ H. destruct (destroy_frame m0) as (_ & E & _). congruence.
  - intros x y m0. unfold mousedown_listener.
    destruct (gtb (scale m0) one); exact (fun H => H).
  - intros x y m0. unfold mousemove_listener.
    destruct (isDragging m0 && gtb (scale m0) one); case_write; exact (fun H => H).
  - intros m0. unfold mouseup_listener. destruct (isDragging m0); exact (fun H => H).
  - intros t m0 H. destruct t; [exact H|]. intros E. discriminate E.
  - intros v q m0 H. exact H.
Qed.

Lemma scroll_lock_never_outlives_modal_witness :
  scroll_lock_needs_open (run session (constructor no_options)).
Proof.
  apply (scroll_lock_never_outlives_modal session (constructor no_options)).
  intros H. discriminate H.
Defined.

(** ** A [maxZoom] below 1 *)

Lemma lex_lt (e1 e2 : Z) (m1 m2 : positive) :
  match e1 ?= e2 with
  | Eq => Pos.compare_cont Eq m1 m2
  | Lt => Lt
  | Gt => Gt
  end = Lt <-> e1 < e2 \/ (e1 = e2 /\ (m1 < m2)%positive).
Proof.
  change (Pos.compare_cont Eq m1 m2) with (m1 ?= m2)%positive.
  destruct (Z.compare_spec e1 e2) as [Ee|Ee|Ee]; split; intros H;
    try discriminate H; try lia; try reflexivity.
  - right. split; [assumption|]. exact H.
  - destruct H as [H' | [_ H']]; [lia | exact H'].
Qed.

Lemma lex_gt (e1 e2 : Z) (m1 m2 : positive) :
  match e1 ?= e2 with
  | Eq => CompOpp (Pos.compare_cont Eq m1 m2)
  | Lt => Gt
  | Gt => Lt
  end = Lt <-> e2 < e1 \/ (e1 = e2 /\ (m2 < m1)%positive).
Proof.
  change (Pos.compare_cont Eq m1 m2) with (m1 ?= m2)%positive.
  destruct (Z.compare_spec e1 e2) as [Ee|Ee|Ee]; split; intros H;
    try discriminate H; try lia; try reflexivity.
  - right. split; [assumption|].
    destruct (Pos.compare_spec m1 m2) as [E|E|E]; try discriminate H; exact E.
  - destruct H as [H' | [_ H']]; [lia|].
    destruct (Pos.compare_spec m1 m2) as [E|E|E]; try reflexivity; lia.
Qed.

(** [<] on Numbers is transitive. *)
Lemma compare_lt_trans (a b c : number) :
  SFcompare a b = Some Lt -> SFcompare b c = Some Lt -> SFcompare a c = Some Lt.
Proof.
  destruct a as [sa|sa| |sa ma ea], b as [sb|sb| |sb mb eb],
    c as [sc|sc| |sc mc ec]; cbn [SFcompare];
    try discriminate;
    try (destruct sa; try discriminate; destruct sb; try discriminate;
         destruct sc; try discriminate; reflexivity);
    try (destruct sa, sb; discriminate);
    try (destruct sb, sc; discriminate);
    try (destruct sa, sc; try discriminate; reflexivity).
  all: try (destruct sa, sb, sc; try discriminate; try reflexivity).
  all: intros [= H1] [= H2]; f_equal.
  - apply lex_gt. apply lex_gt in H1, H2. lia.
  - apply lex_lt. apply lex_lt in H1, H2. lia.
Qed.

Lemma Math_min_below (hi x : number) :
  gtb one hi = true -> leb one x = true -> Math_min hi x = hi.
Proof.
  unfold gtb, SFltb, leb, SFleb. intros Hhi Hx.
  destruct (SFcompare hi one) as [[| |]|] eqn:E1; try discriminate Hhi.
  assert (E : SFcompare hi x = Some Lt).
  { destruct (SFcompare one x) as [[| |]|] eqn:E2; try discriminate Hx.
    - assert (Hx1 : x = one).
      { apply strict_eq_one. unfold strict_eq, SFeqb.
        rewrite (compare_antisym _ _ _ E2). reflexivity. }
      subst x. exact E1.
    - exact (compare_lt_trans _ _ _ E1 E2). }
  unfold Math_min. rewrite E. reflexivity.
Qed.

(** X5: with zoom enabled and [maxZoom < 1], a call of [zoom] whose sum
    [scale + delta] is not NaN sets the scale to [maxZoom] itself, below the
    base scale: the clamp's lower bound gives way, and at that scale a drag
    cannot start. *)
Theorem zoom_with_maxZoom_below_one (delta : number) (m : Modal) :
  enableZoom (options m) = true ->
  gtb one (maxZoom (options m)) = true ->
  is_nan (add (scale m) delta) = false ->
  scale (zoom delta m) = maxZoom (options m) /\
  gtb (scale (zoom delta m)) one = false /\
  strict_eq (scale (zoom delta m)) one = false.
Proof.
  intros Hen Hhi Hsum.
  destruct (zoom_enabled m delta Hen) as (Hs & _).
  assert (E : scale (zoom delta m) = maxZoom (options m)).
  { rewrite Hs. unfold clamp_scale. apply Math_min_below; [exact Hhi|].
    apply Math_max_lower; [reflexivity | exact Hsum]. }
  rewrite E. split; [reflexivity|].
  unfold gtb, strict_eq, SFltb, SFeqb in *.
  destruct (SFcompare (maxZoom (options m)) one) as [[| |]|] eqn:E1;
    try discriminate Hhi.
  rewrite (compare_antisym _ _ _ E1). split; reflexivity.
Qed.

Lemma zoom_with_maxZoom_below_one_witness :
  scale (zoom tenth (constructor (only_maxZoom half))) = half.
Proof.
  apply (zoom_with_maxZoom_below_one tenth (constructor (only_maxZoom half)));
    vm_compute; reflexivity.
Defined.

(** ** Drags and resets *)

(** X6: [resetZoom] is idempotent and does not end a drag, but right
    after it neither a mouse move nor a mouse press pans or re-anchors:
    both leave the reset state as it is. *)
Theorem reset_stops_pan (x y : number) (m : Modal) :
  resetZoom (resetZoom m) = resetZoom m /\
  isDragging (resetZoom m) = isDragging m /\
  mousemove_listener x y (resetZoom m) = resetZoom m /\
  mousedown_listener x y (resetZoom m) = resetZoom m.
Proof.
  assert (E : gtb (scale (resetZoom m)) one = false) by (vm_compute; reflexivity).
  unfold mousemove_listener, mousedown_listener. rewrite E, andb_false_r.
  repeat split.
Qed.

(** X7: after a mouse release, a mouse move changes nothing, on any
    instance and in any state. *)
Theorem mouseup_ends_pan (x y : number) (m : Modal) :
  dispatch (MouseMove x y) (dispatch MouseUp m) = dispatch MouseUp m.
Proof.
  cbn [dispatch]. destruct (zoom_bound (listeners m)) eqn:Hb.
  - unfold mouseup_listener. destruct (isDragging m) eqn:Hd.
    + cbn [listeners set_isDragging set_modalImg_cursor set_dom]. rewrite Hb.
      reflexivity.
    + rewrite Hb. unfold mousemove_listener. rewrite Hd. reflexivity.
  - rewrite Hb. reflexivity.
Qed.

(** X8: on an instance constructed with [enableZoom] set, panning
    outlives any later [updateOptions], also one that sets
    [enableZoom: false]: at a scale above 1 a press at [(x0, y0)] and a move
    to [(x, y)] still set the pan to [(x, y)] minus the anchor. *)
Theorem pan_survives_disabling_zoom
  (p q : OptionsPatch) (acts : list Action) (x0 y0 x y : number) :
  enableZoom (spread defaults p) = true ->
  let m := updateOptions q (run acts (constructor p)) in
  gtb (scale m) one = true ->
  let m' := dispatch (MouseMove x y) (dispatch (MouseDown x0 y0) m) in
  translateX m' = sub x (sub x0 (translateX m)) /\
  translateY m' = sub y (sub y0 (translateY m)).
Proof.
  intros Hen m Hgt m'.
  assert (Hb : zoom_bound (listeners m) = true).
  { subst m. change (listeners (updateOptions q ?r)) with (listeners r).
    rewrite listeners_run. exact Hen. }
  subst m'. cbn [dispatch]. rewrite Hb.
  unfold mousedown_listener. rewrite Hgt.
  cbn [listeners set_isDragging set_startX set_startY set_modalImg_cursor set_dom].
  rewrite Hb. unfold mousemove_listener.
  cbn [isDragging scale set_isDragging set_startX set_startY
       set_modalImg_cursor set_dom andb].
  rewrite Hgt. case_write; split; reflexivity.
Qed.

Lemma pan_survives_disabling_zoom_witness :
  let m :=
    updateOptions (only_enableZoom false)
      (run [CallOpen cat; Dispatch (Wheel (of_Z (-100)))] (constructor no_options)) in
  let m' :=
    dispatch (MouseMove (of_Z 130) (of_Z 20))
      (dispatch (MouseDown (of_Z 100) (of_Z 40)) m) in
  translateX m' = sub (of_Z 130) (sub (of_Z 100) (translateX m)) /\
  translateY m' = sub (of_Z 20) (sub (of_Z 40) (translateY m)).
Proof.
  apply (pan_survives_disabling_zoom no_options (only_enableZoom false)
           [CallOpen cat; Dispatch (Wheel (of_Z (-100)))]);
    vm_compute; reflexivity.
Defined.

(** ** Captions *)

Lemma or_else_blank (a : option string) (b : string) :
  blank a = true -> or_else a b = b.
Proof. destruct a as [s|]; cbn; [intros ->|]; reflexivity. Qed.

Lemma or_else_filled (s b : string) : s <> ""%string -> or_else (Some s) b = s.
Proof.
  intros H. cbn. destruct (String.eqb_spec s ""); [contradiction|reflexivity].
Qed.

Lemma open_caption_dom (img : Image) (m : Modal) :
  showCaption (options m) = true ->
  caption_textContent (dom (open img m)) =
    or_else (alt img) (or_else (title img) "") /\
  caption_display (dom (open img m)) =
    if (or_else (alt img) (or_else (title img) "") =? "")%string
    then "none"%string else "block"%string.
Proof.
  intros H. unfold open. cbn [options set_currentImage set_modalImg_src set_dom].
  rewrite H. split; reflexivity.
Qed.

(** X9: with [showCaption] set, [open] shows the [alt] text when there is
    a non-empty one, else the [title] when there is a non-empty one, and in
    both cases displays the caption as a block; with neither it empties the
    caption and hides it. *)
Theorem open_caption (img : Image) (m : Modal) :
  showCaption (options m) = true ->
  (forall a, alt img = Some a -> a <> ""%string ->
     caption_textContent (dom (open img m)) = a /\
     caption_display (dom (open img m)) = "block"%string) /\
  (forall t, blank (alt img) = true -> title img = Some t -> t <> ""%string ->
     caption_textContent (dom (open img m)) = t /\
     caption_display (dom (open img m)) = "block"%string) /\
  (blank (alt img) = true -> blank (title img) = true ->
     caption_textContent (dom (open img m)) = ""%string /\
     caption_display (dom (open img m)) = "none"%string).
Proof.
  intros H. destruct (open_caption_dom img m H) as [-> ->].
  split; [|split].
  - intros a Ha Hne. rewrite Ha, (or_else_filled a _ Hne).
    destruct (String.eqb_spec a ""); [contradiction|]. split; reflexivity.
  - intros t Hb Ht Hne.
    rewrite (or_else_blank _ _ Hb), Ht, (or_else_filled t _ Hne).
    destruct (String.eqb_spec t ""); [contradiction|]. split; reflexivity.
  - intros Ha Ht. rewrite (or_else_blank _ _ Ha), (or_else_blank _ _ Ht).
    split; reflexivity.
Qed.

Lemma open_caption_witness :
  caption_textContent (dom (open bird (constructor no_options))) = "a bird"%string /\
  caption_display (dom (open bird (constructor no_options))) = "block"%string.
Proof.
  destruct (open_caption bird (constructor no_options) eq_refl) as (_ & H & _).
  apply (H "a bird"%string); [reflexivity | reflexivity | discriminate].
Defined.

(** X10: once [updateOptions] has set [showCaption: false], [open] leaves
    the caption's text and display as the previous image left them: the old
    caption is frozen, not hidden. *)
Theorem caption_frozen_when_switched_off
  (p : OptionsPatch) (img : Image) (m : Modal) :
  p_showCaption p = Some false ->
  caption_textContent (dom (open img (updateOptions p m))) =
    caption_textContent (dom m) /\
  caption_display (dom (open img (updateOptions p m))) = caption_display (dom m).
Proof.
  intros H. unfold open.
  cbn [options set_currentImage set_modalImg_src set_dom updateOptions
       set_options spread showCaption].
  rewrite H. split; reflexivity.
Qed.

Lemma caption_frozen_when_switched_off_witness :
  caption_textContent
    (dom (open dog (updateOptions no_caption (open cat (constructor no_options))))) =
  "cat"%string.
Proof.
  apply (caption_frozen_when_switched_off no_caption dog
           (open cat (constructor no_options))).
  reflexivity.
Defined.

(** ** Keys and clicks *)

(** X11: in every state of a run, a key press calls [close] exactly when
    the instance was constructed with [closeOnEsc], the key is [Escape] and
    the modal is open; otherwise it changes nothing.  Setting [closeOnEsc]
    later has no effect. *)
Theorem escape_closes_when_bound
  (p : OptionsPatch) (acts : list Action) (key : string) :
  let m := run acts (constructor p) in
  dispatch (KeyDown key) m =
    if closeOnEsc (spread defaults p) && (key =? "Escape")%string && isOpen m
    then close m else m.
Proof.
  intros m. cbn [dispatch]. unfold keydown_listener.
  subst m. rewrite listeners_run.
  change (closeOnEsc_bound (listeners (constructor p)))
    with (closeOnEsc (spread defaults p)).
  destruct (closeOnEsc (spread defaults p)); reflexivity.
Qed.

(** X12: in every state of a run, a click on the close button calls
    [close], open or not; a click on the backdrop calls [close] exactly when
    the instance was constructed with [closeOnClick]; a click elsewhere that
    hits no image changes nothing. *)
Theorem modal_clicks (p : OptionsPatch) (acts : list Action) (excluded : bool) :
  let m := run acts (constructor p) in
  dispatch (Click OnCloseButton None excluded) m = close m /\
  dispatch (Click OnBackdrop None excluded) m =
    (if closeOnClick (spread defaults p) then close m else m) /\
  dispatch (Click OnOther None excluded) m = m.
Proof.
  intros m. cbn [dispatch]. unfold click_listeners.
  subst m. rewrite listeners_run.
  change (closeOnClick_bound (listeners (constructor p)))
    with (closeOnClick (spread defaults p)).
  repeat split.
Qed.

Lemma isExcluded_spec (excluded : bool) (m : Modal) :
  isExcluded excluded m = true <->
  excluded = true /\
  exists s, excludeSelector (options m) = Some s /\ s <> ""%string.
Proof.
  unfold isExcluded. destruct (excludeSelector (options m)) as [s|].
  - destruct (String.eqb_spec s ""); split.
    + discriminate.
    + intros (_ & s' & [= <-] & H). contradiction.
    + intros ->. split; [reflexivity|]. exists s. split; [reflexivity|assumption].
    + intros [-> _]. reflexivity.
  - split; [discriminate|]. intros (_ & s & H & _). discriminate H.
Qed.

(** X13: an exclusion selector set by [updateOptions] counts from the
    next click on: a click on a page image that matches a non-empty
    [excludeSelector] changes nothing. *)
Theorem excluded_image_never_opens
  (s : string) (q : OptionsPatch) (img : Image) (m : Modal) :
  s <> ""%string ->
  p_excludeSelector q = Some (Some s) ->
  dispatch (Click OnOther (Some img) true) (updateOptions q m) = updateOptions q m.
Proof.
  intros Hs Hq. cbn [dispatch]. unfold click_listeners.
  assert (E : isExcluded true (updateOptions q m) = true).
  { apply isExcluded_spec. split; [reflexivity|]. exists s. split; [|exact Hs].
    cbn. rewrite Hq. reflexivity. }
  rewrite E. reflexivity.
Qed.

Lemma excluded_image_never_opens_witness :
  dispatch (Click OnOther (Some cat) true)
    (updateOptions exclude_no_zoom (constructor no_options)) =
  updateOptions exclude_no_zoom (constructor no_options).
Proof.
  apply (excluded_image_never_opens ".no-zoom" exclude_no_zoom cat
           (constructor no_options));
    [discriminate | reflexivity].
Defined.

(** X14: when [excludeSelector] is [null] or empty, or the image does not
    match it, a click that hits an image opens it, whatever was clicked:
    afterwards the modal is laid out, page scrolling is suspended and the
    image shown is the one clicked. *)
Theorem click_opens_without_exclusion
  (target : ClickTarget) (img : Image) (excluded : bool) (m : Modal) :
  excludeSelector (options m) = None \/
    excludeSelector (options m) = Some ""%string \/ excluded = false ->
  let m' := dispatch (Click target (Some img) excluded) m in
  isOpen m' = true /\ scroll_suspended m' = true /\
  currentImage m' = Some img /\ modalImg_src (dom m') = src img.
Proof.
  intros H m'.
  assert (E : isExcluded excluded m = false).
  { unfold isExcluded. destruct H as [-> | [-> | ->]]; [reflexivity | reflexivity |].
    destruct (excludeSelector (options m)) as [s|]; [|reflexivity].
    destruct (s =? "")%string; reflexivity. }
  subst m'. cbn [dispatch]. unfold click_listeners.
  set (m1 := match target with
             | OnBackdrop => _
             | OnCloseButton => _
             | OnOther => _
             end).
  assert (E1 : isExcluded excluded m1 = false).
  { unfold isExcluded in *. subst m1.
    destruct target; try destruct (closeOnClick_bound (listeners m)); exact E. }
  rewrite E1. cbn [negb].
  destruct (open_effect img m1) as (Ho & Hs & Hc & Hsrc & _).
  repeat split; assumption.
Qed.

Lemma click_opens_without_exclusion_witness :
  let m' :=
    dispatch (Click OnOther (Some dog) true) (constructor no_options) in
  isOpen m' = true /\ scroll_suspended m' = true /\
  currentImage m' = Some dog /\ modalImg_src (dom m') = src dog.
Proof.
  apply (click_opens_without_exclusion OnOther dog true (constructor no_options)).
  left. reflexivity.
Defined.

(** ** [destroy] and [updateOptions] *)

(** X15: [destroy] detaches the modal and gives page scrolling back, and
    doing it twice is the same as once; but it neither marks the modal as
    closed, nor cancels a timer, nor removes a listener. *)
Theorem destroy_effect (m : Modal) :
  modal_attached (dom (destroy m)) = false /\
  scroll_suspended (destroy m) = false /\
  isOpen (destroy m) = isOpen m /\
  listeners (destroy m) = listeners m /\
  timers (destroy m) = timers m /\
  destroy (destroy m) = destroy m.
Proof.
  unfold destroy.
  destruct (modal_attached (dom m)) eqn:E; cbn; rewrite ?E; repeat split.
Qed.

(** X16: the document's click listener outlives [destroy]: with no
    exclusion selector, a click on a page image after [destroy] still runs
    [open], so the page's scrolling is suspended again although the modal is
    no longer in the document. *)
Theorem listeners_survive_destroy (img : Image) (excluded : bool) (m : Modal) :
  excludeSelector (options m) = None ->
  let m' := dispatch (Click OnOther (Some img) excluded) (destroy m) in
  modal_attached (dom m') = false /\
  isOpen m' = true /\
  scroll_suspended m' = true.
Proof.
  intros H m'. subst m'. cbn [dispatch]. unfold click_listeners, isExcluded.
  destruct (destroy_frame m) as (Hd & _ & _ & _ & _ & Hopt).
  rewrite Hopt, H. cbn [negb].
  destruct (open_effect img (destroy m)) as (Ho & Hs & _ & _ & Ha & _).
  rewrite Ho, Hs, Ha. repeat split. exact Hd.
Qed.

Lemma listeners_survive_destroy_witness :
  let m' :=
    dispatch (Click OnOther (Some cat) false) (destroy (constructor no_options)) in
  modal_attached (dom m') = false /\
  isOpen m' = true /\
  scroll_suspended m' = true.
Proof.
  apply (listeners_survive_destroy cat false (constructor no_options)).
  reflexivity.
Defined.

Lemma override_idempotent {A : Type} (base : A) (o : option A) :
  override (override base o) o = override base o.
Proof. destruct o; reflexivity. Qed.

(** X17: [updateOptions] with the empty object changes nothing; applying
    the same object twice is the same as once; and in every case only
    [this.options] changes: no listener is added or removed and no style is
    rewritten. *)
Theorem updateOptions_laws (p : OptionsPatch) (m : Modal) :
  updateOptions no_options m = m /\
  updateOptions p (updateOptions p m) = updateOptions p m /\
  listeners (updateOptions p m) = listeners m /\
  dom (updateOptions p m) = dom m.
Proof.
  repeat split.
  - destruct m as [[] ? ? ? ? ? ? ? ? ? ? ?]. reflexivity.
  - unfold updateOptions, set_options.
    cbn [options currentImage scale isDragging startX startY translateX
         translateY dom listeners now timers].
    f_equal. unfold spread.
    cbn [selector excludeSelector modalClass modalContentClass closeButtonClass
         captionClass animationDuration closeOnClick closeOnEsc showCaption
         enableZoom maxZoom].
    rewrite !override_idempotent. reflexivity.
Qed.

(** ** Fades *)

Lemma run_tasks_finish (q : list (Z * Task)) :
  forall m, has_task FinishClose q = true -> closed_at_rest (run_tasks q m).
Proof.
  unfold has_task.
  induction q as [|[due t] q IH]; intros m H; [discriminate H|].
  cbn [existsb snd] in H. cbn [run_tasks fold_left snd].
  fold (run_tasks q (run_task t m)).
  destruct (existsb (fun p => Task_eqb (snd p) FinishClose) q) eqn:E.
  - apply IH. reflexivity.
  - rewrite orb_false_r in H. destruct t; [discriminate H|].
    apply run_tasks_closed_at_rest. repeat split.
Qed.

Lemma opacity_run_tasks (q : list (Z * Task)) :
  forall m,
    modal_opacity (dom (run_tasks q m)) =
    if has_task FadeIn q then "1"%string else modal_opacity (dom m).
Proof.
  unfold has_task.
  induction q as [|[due t] q IH]; intros m; [reflexivity|].
  cbn [run_tasks fold_left existsb snd]. fold (run_tasks q (run_task t m)).
  rewrite IH. destruct t; cbn [Task_eqb orb run_task].
  - destruct (existsb _ q); reflexivity.
  - reflexivity.
Qed.

(** X18: [close] always completes: from any state, whatever timers are
    pending, with [animationDuration] in the signed 32-bit range of a
    timer's delay, once that many milliseconds (0 if negative) have passed
    the modal is hidden, page scrolling is restored and the transform is
    the identity. *)
Theorem close_completes (m : Modal) (dt : Z) :
  -2147483648 <= animationDuration (options m) < 2147483648 ->
  Z.max 0 (animationDuration (options m)) <= dt ->
  closed_at_rest (elapse dt (close m)).
Proof.
  intros Hrange Hdt. unfold elapse. apply run_tasks_finish.
  destruct (timers_close m) as [-> ->].
  rewrite (timer_delay_in_range _ Hrange).
  rewrite has_task_enqueue_filter. apply orb_true_iff. left.
  unfold due_by. cbn [fst Task_eqb]. rewrite andb_true_r.
  apply Z.leb_le. lia.
Qed.

Lemma close_completes_witness :
  closed_at_rest (elapse 300 (close zoomed_cat)).
Proof.
  apply (close_completes zoomed_cat 300).
  - vm_compute. split; [discriminate | reflexivity].
  - vm_compute. discriminate.
Defined.

(** X19: the fade-in always completes: 10 ms after [open], whatever
    timers were pending, the modal's opacity is [1]. *)
Theorem fade_in_completes (img : Image) (m : Modal) (dt : Z) :
  10 <= dt ->
  modal_opacity (dom (elapse dt (open img m))) = "1"%string.
Proof.
  intros Hdt. unfold elapse. rewrite opacity_run_tasks.
  destruct (timers_open img m) as [-> ->].
  rewrite has_task_enqueue_filter.
  unfold due_by at 1. cbn [fst Task_eqb]. rewrite andb_true_r.
  destruct (Z.leb_spec (now m + 10) (now m + Z.max 0 dt)); [reflexivity | lia].
Qed.

Lemma fade_in_completes_witness :
  modal_opacity (dom (elapse 10 (open cat (constructor no_options)))) = "1"%string.
Proof.
  apply (fade_in_completes cat (constructor no_options) 10). lia.
Defined.

(** X20: a [close] issued before the fade-in tick is visually undone:
    [close] sets the opacity to [0], but the pending callback of [open]
    sets it back to [1] at 10 ms, and the modal stays laid out at full
    opacity until the close timer fires (no earlier close pending,
    [animationDuration] within the 32-bit range of a timer's delay). *)
Theorem early_close_is_undone (img : Image) (m : Modal) (dt : Z) :
  has_task FinishClose (timers m) = false ->
  animationDuration (options m) < 2147483648 ->
  10 <= dt < animationDuration (options m) ->
  modal_opacity (dom (close (open img m))) = "0"%string /\
  modal_opacity (dom (elapse dt (close (open img m)))) = "1"%string /\
  isOpen (elapse dt (close (open img m))) = true.
Proof.
  intros Hq Hmax Hdt.
  assert (Hrange : -2147483648 <= animationDuration (options m) < 2147483648)
    by lia.
  destruct (timers_open img m) as [Ht Hn].
  destruct (open_frame m img) as (Hopt & _).
  destruct (timers_close (open img m)) as [Htc Hnc].
  split; [reflexivity|].
  unfold elapse. rewrite opacity_run_tasks, isOpen_run_tasks.
  rewrite Htc, Hnc, Ht, Hn, Hopt, (timer_delay_in_range _ Hrange).
  rewrite !has_task_enqueue_filter.
  rewrite (has_task_filter_false _ _ _ Hq).
  unfold due_by at 1 2 3 5. cbn [fst Task_eqb].
  rewrite !andb_false_r, !andb_true_r, !orb_false_r. cbn [orb].
  change (isOpen (set_now _ _)) with (isOpen (open img m)).
  rewrite (isOpen_open img m).
  destruct (Z.leb_spec (now m + 10) (now m + Z.max 0 dt)); [|lia].
  destruct (Z.leb_spec (now m + Z.max 0 (animationDuration (options m)))
              (now m + Z.max 0 dt)); [lia|].
  split; reflexivity.
Qed.

Lemma early_close_is_undone_witness :
  modal_opacity (dom (close (open cat (constructor no_options)))) = "0"%string /\
  modal_opacity (dom (elapse 10 (close (open cat (constructor no_options))))) =
    "1"%string /\
  isOpen (elapse 10 (close (open cat (constructor no_options)))) = true.
Proof.
  apply (early_close_is_undone cat (constructor no_options) 10);
    [reflexivity | cbn; lia | cbn; lia].
Defined.

(** ** The two engines keep to themselves *)

Lemma zoom_lifecycle (delta : number) (m : Modal) :
  lifecycle_state (zoom delta m) = lifecycle_state m.
Proof.
  unfold zoom.
  destruct (enableZoom (options m)); cbn [negb]; [|reflexivity].
  set (c := Math_min _ _). cbn [scale set_scale].
  destruct (strict_eq c one); case_write; reflexivity.
Qed.

Lemma zoom_event_lifecycle (e : Event) (m : Modal) :
  zoom_event e = true ->
  lifecycle_state (dispatch e m) = lifecycle_state m.
Proof.
  intros He. destruct e as [target closest excluded|key|dy|x y|x y| |];
    try discriminate He; cbn [dispatch];
    destruct (zoom_bound (listeners m)); try reflexivity.
  - apply zoom_lifecycle.
  - unfold mousedown_listener. destruct (gtb (scale m) one); reflexivity.
  - unfold mousemove_listener.
    destruct (isDragging m && gtb (scale m) one); case_write; reflexivity.
  - unfold mouseup_listener. destruct (isDragging m); reflexivity.
Qed.

Lemma isOpen_of_lifecycle (a b : Modal) :
  lifecycle_state a = lifecycle_state b -> isOpen a = isOpen b.
Proof.
  unfold lifecycle_state, isOpen. intros E.
  injection E as _ _ _ _ _ E _. rewrite E. reflexivity.
Qed.

Lemma isOpen_dispatch (e : Event) (m : Modal) :
  isOpen m = true -> isOpen (dispatch e m) = true.
Proof.
  intros H. destruct (zoom_event e) eqn:He.
  { rewrite (isOpen_of_lifecycle _ _ (zoom_event_lifecycle e m He)). exact H. }
  destruct e as [target closest excluded|key|dy|x y|x y| |];
    try discriminate He; cbn [dispatch].
  - unfold click_listeners.
    set (m1 := match target with
               | OnBackdrop => _
               | OnCloseButton => _
               | OnOther => _
               end).
    assert (H1 : isOpen m1 = true).
    { subst m1. destruct target;
        try destruct (closeOnClick_bound (listeners m)); exact H. }
    destruct closest as [img|]; [|exact H1].
    destruct (negb _); [|exact H1]. apply isOpen_open.
  - unfold keydown_listener.
    destruct (closeOnEsc_bound (listeners m)); [|exact H].
    destruct (_ && _); exact H.
Qed.

(** X21: nothing hides the modal at once: if an action takes an open
    modal to a hidden one, the action is time passing, and a callback of
    [close] was among the timers that fired. *)
Theorem only_the_timer_hides (a : Action) (m : Modal) :
  isOpen m = true ->
  isOpen (step m a) = false ->
  exists dt, a = Elapse dt /\
    has_task FinishClose (filter (due_by (now m + Z.max 0 dt)) (timers m)) = true.
Proof.
  intros Ho Hc. destruct a as [img| |delta| |p| |e|dt]; cbn [step] in Hc.
  - rewrite isOpen_open in Hc. discriminate Hc.
  - change (isOpen (close m)) with (isOpen m) in Hc. congruence.
  - rewrite (isOpen_of_lifecycle _ _ (zoom_lifecycle delta m)) in Hc. congruence.
  - change (isOpen (resetZoom m)) with (isOpen m) in Hc. congruence.
  - change (isOpen (updateOptions p m)) with (isOpen m) in Hc. congruence.
  - destruct (destroy_frame m) as (_ & _ & E & _). congruence.
  - rewrite (isOpen_dispatch e m Ho) in Hc. discriminate Hc.
  - exists dt. split; [reflexivity|].
    unfold elapse in Hc. rewrite isOpen_run_tasks in Hc.
    destruct (has_task FinishClose _); [reflexivity|].
    change (isOpen (set_now _ _)) with (isOpen m) in Hc. congruence.
Qed.

Lemma only_the_timer_hides_witness :
  exists dt, Elapse 300 = Elapse dt /\
    has_task FinishClose
      (filter (due_by (now (close (open cat (constructor no_options))) + Z.max 0 dt))
         (timers (close (open cat (constructor no_options))))) = true.
Proof.
  apply (only_the_timer_hides (Elapse 300)
           (close (open cat (constructor no_options))));
    reflexivity.
Defined.

(** X22: the wheel, mouse and double-click events reach the transform
    engine only: options, image, listeners, clock, timers, the modal's
    display and opacity, the page's overflow and the caption are as
    before. *)
Theorem pointer_events_keep_lifecycle (e : Event) (m : Modal) :
  zoom_event e = true ->
  lifecycle_state (dispatch e m) = lifecycle_state m.
Proof. apply zoom_event_lifecycle. Qed.

Lemma pointer_events_keep_lifecycle_witness :
  lifecycle_state (dispatch DblClick zoomed_cat) = lifecycle_state zoomed_cat.
Proof.
  apply (pointer_events_keep_lifecycle DblClick zoomed_cat). reflexivity.
Defined.

(** X23: [open], [close], [updateOptions], [destroy], clicks and key
    presses leave the transform engine alone when they run: scale, pan,
    drag flag and drag anchor are as before.  Only [zoom], [resetZoom], the
    zoom and drag events and the callback of [close] change them. *)
Theorem lifecycle_actions_keep_transform (a : Action) (m : Modal) :
  transform_action a = false ->
  transform_state (step m a) = transform_state m.
Proof.
  intros Ha. destruct a as [img| | | |p| |e|dt]; try discriminate Ha; cbn [step].
  - unfold open. cbn [options set_currentImage set_modalImg_src set_dom].
    destruct (showCaption (options m)); reflexivity.
  - reflexivity.
  - reflexivity.
  - unfold destroy. destruct (modal_attached (dom m)); reflexivity.
  - destruct e as [target closest excluded|key|dy|x y|x y| |];
      try discriminate Ha; cbn [dispatch].
    + unfold click_listeners.
      set (m1 := match target with
                 | OnBackdrop => _
                 | OnCloseButton => _
                 | OnOther => _
                 end).
      assert (H1 : transform_state m1 = transform_state m).
      { subst m1. destruct target;
          try destruct (closeOnClick_bound (listeners m)); reflexivity. }
      destruct closest as [img|]; [|exact H1].
      destruct (negb _); [|exact H1].
      rewrite <- H1. unfold open.
      cbn [options set_currentImage set_modalImg_src set_dom].
      destruct (showCaption (options m1)); reflexivity.
    + unfold keydown_listener.
      destruct (closeOnEsc_bound (listeners m)); [|reflexivity].
      destruct (_ && _); reflexivity.
Qed.

Lemma lifecycle_actions_keep_transform_witness :
  transform_state (step zoomed_cat (Dispatch (KeyDown "Escape"))) =
  transform_state zoomed_cat.
Proof.
  apply (lifecycle_actions_keep_transform (Dispatch (KeyDown "Escape")) zoomed_cat).
  reflexivity.
Defined.
